(** * Sparkhack: RFID presence tracking and timeout-driven actions

    A shallow embedding of [Main.py]: the five shared globals guarded by
    [state_lock], the bodies of the two polling loops
    ([rfid_reader_thread], [timeout_handler_thread]) and the two spawned
    actions ([capture_image], [display_qr]).

    Conventions of the embedding.
    - Card identifiers are Python integers, hence [Z].
    - [time.time()] values are idealised as rationals ([Q]); the code only
      stores them, subtracts them and compares the difference with [5] and
      [6].  (Two epoch timestamps a few seconds apart are within a factor
      of two of each other, and the binary64 difference of such numbers is
      exact.)
    - Every function of the source is a computation in the monad [M]: it
      threads the shared globals, appends the externally visible steps it
      performs to a trace, and either returns or raises.
    - Each source function touches the globals inside one [with state_lock]
      block only, so the state a computation starts from is the content of
      the globals at the moment the lock is taken.
    - The outcome of the fallible collaborators is an input: what the OLED
      answers to the two canvas blocks of [display_message] is read from a
      [display] record, and what the file, the QR encoder, the image save,
      the OLED ([draw.bitmap] and the two [device.clear()] calls) and the
      camera answer to the two actions from a [world] record.  [print] and
      [time.sleep] are taken to return.
    - A text read from a file is a Python [str]: a list of code points. *)

From Stdlib Require Import ZArith NArith QArith Bool List String Ascii Lia.
From Stdlib Require Import DecimalString.
Import ListNotations.

Open Scope string_scope.
Open Scope list_scope.
Open Scope Z_scope.

(** ** Configuration constants *)

Definition AUTHORIZED_ID : Z := 1047839255856.

Definition OLED_WIDTH : Z := 128.
Definition OLED_HEIGHT : Z := 64.
Definition FILE_PATH : string := "/home/soham/examplelog.txt".
Definition SAVE_PATH : string := "/home/soham/qr_debug.png".
Definition IMAGE_DIRECTORY : string := "/home/soham/captured_images".

(** ** Global state variables *)

Record state : Type := mkState {
  current_card : option Z;
  last_removed_time : option Q;
  last_removed_authorized : bool;
  image_captured : bool;
  qr_displayed : bool
}.

Definition init_state : state :=
  {| current_card := None;
     last_removed_time := None;
     last_removed_authorized := false;
     image_captured := false;
     qr_displayed := false |}.

(** ** Externally visible steps *)

(** The two functions handed to [threading.Thread(target=...)]. *)
Inductive target : Type := CaptureImage | DisplayQr.

Inductive event : Type :=
| EvAcquire                              (* state_lock.__enter__ *)
| EvRelease                              (* state_lock.__exit__ *)
| EvPrint (msg : string)
| EvSleep (secs : Q)
| EvDrawText (x y : Z) (msg : string)    (* canvas: draw.text *)
| EvDrawRectangle                        (* canvas: black bounding box *)
| EvDrawBitmap (x y : Z)                 (* canvas: draw.bitmap *)
| EvDeviceClear
| EvFileRead (path : string)
| EvFileSave (path : string)             (* img.save *)
| EvCameraStart
| EvCameraCapture (path : string)        (* picam2.capture_file *)
| EvCameraStop
| EvSpawn (t : target).

Definition trace : Type := list event.

(** ** The monad of the embedding: globals, trace, exceptions *)

Record exn : Type := Exception { exn_msg : string }.

Inductive result (A : Type) : Type :=
| Returned (a : A)
| Raised (e : exn).
Arguments Returned {A} a.
Arguments Raised {A} e.

Definition M (A : Type) : Type := state -> trace * result A * state.

Definition ret {A} (a : A) : M A := fun s => ([], Returned a, s).

Definition bind {A B} (m : M A) (k : A -> M B) : M B :=
  fun s =>
    match m s with
    | (t1, Returned a, s1) =>
        match k a s1 with
        | (t2, r, s2) => (t1 ++ t2, r, s2)
        end
    | (t1, Raised e, s1) => (t1, Raised e, s1)
    end.

Declare Scope py_scope.
Delimit Scope py_scope with py.
Notation "x <- m ;; k" := (bind m (fun x => k))
  (at level 61, m at next level, right associativity) : py_scope.
Notation "m ;; k" := (bind m (fun _ => k))
  (at level 61, right associativity) : py_scope.
Open Scope py_scope.

Definition emit (e : event) : M unit := fun s => ([e], Returned tt, s).
Definition raise {A} (e : exn) : M A := fun s => ([], Raised e, s).
Definition get : M state := fun s => ([], Returned s, s).
Definition put (s : state) : M unit := fun _ => ([], Returned tt, s).

(** [try: body except Exception as e: handler e] *)
Definition try_except {A} (body : M A) (handler : exn -> M A) : M A :=
  fun s =>
    match body s with
    | (t1, Raised e, s1) =>
        match handler e s1 with
        | (t2, r, s2) => (t1 ++ t2, r, s2)
        end
    | ok => ok
    end.

(** [with state_lock: body]; the lock is released on every exit. *)
Definition with_state_lock {A} (body : M A) : M A :=
  fun s =>
    match body s with
    | (t, r, s') => (EvAcquire :: t ++ [EvRelease], r, s')
    end.

(** A fallible external call: performs [e] and returns, or raises. *)
Definition extern (outcome : option exn) (e : event) : M unit :=
  match outcome with
  | None => emit e
  | Some x => raise x
  end.

Definition run_trace {A} (m : M A) (s : state) : trace := fst (fst (m s)).
Definition run_result {A} (m : M A) (s : state) : result A := snd (fst (m s)).
Definition run_state {A} (m : M A) (s : state) : state := snd (m s).

(** Assignments to the globals. *)
Definition set_current_card (v : option Z) : M unit :=
  s <- get ;;
  put {| current_card := v;
         last_removed_time := last_removed_time s;
         last_removed_authorized := last_removed_authorized s;
         image_captured := image_captured s;
         qr_displayed := qr_displayed s |}.

Definition set_last_removed_time (v : option Q) : M unit :=
  s <- get ;;
  put {| current_card := current_card s;
         last_removed_time := v;
         last_removed_authorized := last_removed_authorized s;
         image_captured := image_captured s;
         qr_displayed := qr_displayed s |}.

Definition set_last_removed_authorized (v : bool) : M unit :=
  s <- get ;;
  put {| current_card := current_card s;
         last_removed_time := last_removed_time s;
         last_removed_authorized := v;
         image_captured := image_captured s;
         qr_displayed := qr_displayed s |}.

Definition set_image_captured (v : bool) : M unit :=
  s <- get ;;
  put {| current_card := current_card s;
         last_removed_time := last_removed_time s;
         last_removed_authorized := last_removed_authorized s;
         image_captured := v;
         qr_displayed := qr_displayed s |}.

Definition set_qr_displayed (v : bool) : M unit :=
  s <- get ;;
  put {| current_card := current_card s;
         last_removed_time := last_removed_time s;
         last_removed_authorized := last_removed_authorized s;
         image_captured := image_captured s;
         qr_displayed := v |}.

Definition print (msg : string) : M unit := emit (EvPrint msg).
Definition sleep (secs : Q) : M unit := emit (EvSleep secs).

(** Decimal rendering of the integers interpolated into f-strings. *)
Definition str_Z (z : Z) : string := NilZero.string_of_int (Z.to_int z).
Definition str_nat (n : nat) : string := NilZero.string_of_uint (Nat.to_uint n).

(** ** External collaborators *)

(** A PIL image, as far as the code looks at it: its [size]. *)
Record image : Type := mkImage { img_width : Z; img_height : Z }.

(** A Python [str]: its code points. *)
Definition text : Type := list N.

(** What the OLED answers to the two [with canvas(device)] blocks of one
    call of [display_message]. *)
Record display : Type := mkDisplay {
  d_draw_text : option exn;             (* canvas(device): draw.text *)
  d_draw_rectangle : option exn         (* canvas(device): draw.rectangle *)
}.

(** An OLED that takes both writes. *)
Definition display_works : display :=
  {| d_draw_text := None; d_draw_rectangle := None |}.

(** What the outside world answers to the fallible calls of one action. *)
Record world : Type := mkWorld {
  w_file_read : result text;            (* open(FILE_PATH, "r"), f.read() *)
  w_qr_make : text -> result image;     (* add_data, make(fit=True), make_image, convert *)
  w_img_save : option exn;              (* img.save(SAVE_PATH) *)
  w_draw_bitmap : option exn;           (* canvas(device): draw.bitmap *)
  w_clear_native : option exn;          (* device.clear() of display_qr_native *)
  w_clear_handler : option exn;         (* device.clear() of the except clause *)
  w_strftime : string;                  (* time.strftime("%Y%m%d-%H%M%S") *)
  w_camera_start : option exn;          (* picam2.start() *)
  w_camera_capture_file : option exn;   (* picam2.capture_file(filename) *)
  w_camera_stop : option exn            (* picam2.stop() *)
}.

(** A fallible external call with a value; [lift] is the same for a
    computation that leaves no visible step behind. *)
Definition extern_value {A} (outcome : result A) (e : event) : M A :=
  match outcome with
  | Returned a => emit e ;; ret a
  | Raised x => raise x
  end.

Definition lift {A} (outcome : result A) : M A :=
  match outcome with
  | Returned a => ret a
  | Raised x => raise x
  end.

(** [str.strip()]: the code points Python counts as whitespace are
    U+0009..U+000D, U+001C..U+0020, U+0085, U+00A0, U+1680,
    U+2000..U+200A, U+2028, U+2029, U+202F, U+205F and U+3000. *)
Definition is_space (c : N) : bool :=
  ((9 <=? c) && (c <=? 13) || (28 <=? c) && (c <=? 32)
   || (c =? 133) || (c =? 160) || (c =? 5760)
   || (8192 <=? c) && (c <=? 8202)
   || (c =? 8232) || (c =? 8233) || (c =? 8239) || (c =? 8287)
   || (c =? 12288))%N.

Fixpoint lstrip (s : text) : text :=
  match s with
  | c :: s' => if is_space c then lstrip s' else s
  | [] => []
  end.

Fixpoint rstrip (s : text) : text :=
  match s with
  | c :: s' =>
      match rstrip s' with
      | [] => if is_space c then [] else [c]
      | r => c :: r
      end
  | [] => []
  end.

Definition strip (s : text) : text := rstrip (lstrip s).

(** The [str] whose code points are the bytes of an ASCII literal. *)
Definition text_of_string (s : string) : text :=
  map N_of_ascii (list_ascii_of_string s).

(** ** OLED display and QR code functions *)

Definition display_message (d : display) (message : string) : M unit :=
  print ("Displaying on OLED: " ++ message)%string ;;
  extern (d_draw_text d) (EvDrawText 30 20 message) ;;
  sleep 2 ;;
  extern (d_draw_rectangle d) EvDrawRectangle.

Definition generate_qr_code (w : world) (data : text) : M image :=
  img <- lift (w_qr_make w data) ;;
  extern (w_img_save w) (EvFileSave SAVE_PATH) ;;
  print ("✅ QR saved to " ++ SAVE_PATH ++ " (Dimensions: ("
           ++ str_Z (img_width img) ++ ", " ++ str_Z (img_height img)
           ++ "))")%string ;;
  ret img.

Definition display_qr_native (w : world) (image : image) : M unit :=
  let qr_width := img_width image in
  let qr_height := img_height image in
  let x := (OLED_WIDTH - qr_width) / 2 in
  let y := (OLED_HEIGHT - qr_height) / 2 in
  extern (w_draw_bitmap w) (EvDrawBitmap x y) ;;
  print ("Displaying QR at native resolution (position: "
           ++ str_Z x ++ ", " ++ str_Z y ++ ")")%string ;;
  sleep 5 ;;
  extern (w_clear_native w) EvDeviceClear.

Definition display_qr (w : world) : M unit :=
  try_except
    (raw <- extern_value (w_file_read w) (EvFileRead FILE_PATH) ;;
     let data := strip raw in
     print ("Data length: " ++ str_nat (List.length data)
              ++ " characters")%string ;;
     qr_img <- generate_qr_code w data ;;
     display_qr_native w qr_img)
    (fun e =>
       print ("Error in QR display: " ++ exn_msg e)%string ;;
       extern (w_clear_handler w) EvDeviceClear).

(** ** Camera capture *)

Definition capture_image (w : world) : M unit :=
  print "⏳ Timeout! Capturing image..." ;;
  let timestamp := w_strftime w in
  let filename :=
    (IMAGE_DIRECTORY ++ "/image_" ++ timestamp ++ ".jpg")%string in
  extern (w_camera_start w) EvCameraStart ;;
  sleep 2 ;;
  extern (w_camera_capture_file w) (EvCameraCapture filename) ;;
  extern (w_camera_stop w) EvCameraStop ;;
  print ("📸 Image saved as " ++ filename)%string ;;
  sleep 10 ;;
  with_state_lock
    (set_last_removed_time None ;;
     set_image_captured false ;;
     set_qr_displayed false).

(** ** Thread functions: one iteration of each [while True] loop *)

Definition card_differs (c : option Z) (id : Z) : bool :=
  match c with
  | Some c' => negb (c' =? id)
  | None => true
  end.

(** [id] is what [reader.read_no_block()] returned on this tick, [now]
    what [time.time()] returns when line 149 asks for it, and [d] what the
    OLED answers if the iteration calls [display_message].  An exception
    of [display_message] leaves the [with] block, which releases the lock,
    and the loop: the iteration raises and the reader thread ends. *)
Definition rfid_reader_thread (d : display) (id : option Z) (now : Q)
  : M unit :=
  with_state_lock
    (match id with
     | Some id =>
         s <- get ;;
         if card_differs (current_card s) id then
           set_current_card (Some id) ;;
           (if id =? AUTHORIZED_ID
            then display_message d "AUTHORIZED"
            else display_message d "UNAUTHORIZED") ;;
           set_last_removed_time None ;;
           set_image_captured false ;;
           set_qr_displayed false
         else ret tt
     | None =>
         s <- get ;;
         match current_card s with
         | Some c =>
             set_last_removed_time (Some now) ;;
             set_last_removed_authorized (c =? AUTHORIZED_ID) ;;
             set_current_card None
         | None => ret tt
         end
     end) ;;
  sleep 0.1.

Definition spawn (t : target) : M unit := emit (EvSpawn t).

(** [now] is what [time.time()] returns on line 160. *)
Definition timeout_handler_thread (now : Q) : M unit :=
  with_state_lock
    (s <- get ;;
     match last_removed_time s with
     | Some t0 =>
         let elapsed := (now - t0)%Q in
         (s <- get ;;
          if Qle_bool 5 elapsed && negb (image_captured s) then
            set_image_captured true ;;
            spawn CaptureImage
          else ret tt) ;;
         (s <- get ;;
          if last_removed_authorized s && Qle_bool 6 elapsed
             && negb (qr_displayed s) then
            set_qr_displayed true ;;
            spawn DisplayQr
          else ret tt)
     | None => ret tt
     end) ;;
  sleep 0.1.

(** ** The threads as a transition system

    The lock makes each loop iteration and each action one atomic access to
    the globals.  An [op] is one such access made while both loops run;
    [Capture] and [Qr] are the completion of a spawned action, with the
    world it met.  A reader iteration is followed by another one only if
    it returns, that is, if the OLED took the writes of [display_message]
    whenever it was called: that is what [Scan] stands for.  The one
    iteration in which [display_message] raises is the reader's last; it
    is [reader_crash] below, and only [Poll], [Capture] and [Qr] follow
    it. *)

Inductive op : Type :=
| Scan (id : option Z) (now : Q)   (* one returning iteration of rfid_reader_thread *)
| Poll (now : Q)                   (* one iteration of timeout_handler_thread *)
| Capture (w : world)              (* one run of capture_image *)
| Qr (w : world).                  (* one run of display_qr *)

Definition perform (o : op) : M unit :=
  match o with
  | Scan id now => rfid_reader_thread display_works id now
  | Poll now => timeout_handler_thread now
  | Capture w => capture_image w
  | Qr w => display_qr w
  end.

Definition step (s : state) (o : op) : state := run_state (perform o) s.

Definition run (s : state) (ops : list op) : state := fold_left step ops s.

(** The states met while the reader thread runs. *)
Inductive reachable : state -> Prop :=
| reach_init : reachable init_state
| reach_step : forall s o, reachable s -> reachable (step s o).

(** The exception a call of [display_message] raises, if any. *)
Definition display_raises (d : display) : option exn :=
  match d_draw_text d with
  | Some e => Some e
  | None => d_draw_rectangle d
  end.

(** The globals after the iteration that reads card [id] and ends the
    reader thread when [display_message] raises. *)
Definition reader_crash (d : display) (id : Z) (now : Q) (s : state)
  : state :=
  run_state (rfid_reader_thread d (Some id) now) s.

Definition is_scan (o : op) : bool :=
  match o with
  | Scan _ _ => true
  | _ => false
  end.

(** The states met after the reader thread has ended on an exception of
    [display_message], the timeout handler and the actions going on. *)
Inductive crashed : state -> Prop :=
| crashed_now : forall s d id now e,
    reachable s ->
    run_result (rfid_reader_thread d (Some id) now) s = Raised e ->
    crashed (reader_crash d id now s)
| crashed_step : forall s o,
    crashed s -> is_scan o = false -> crashed (step s o).

(** Which threads an iteration of the timeout handler started. *)
Definition is_spawn (t : target) (e : event) : bool :=
  match e, t with
  | EvSpawn CaptureImage, CaptureImage => true
  | EvSpawn DisplayQr, DisplayQr => true
  | _, _ => false
  end.

Definition capture_started (s : state) (now : Q) : bool :=
  existsb (is_spawn CaptureImage) (run_trace (timeout_handler_thread now) s).

Definition qr_started (s : state) (now : Q) : bool :=
  existsb (is_spawn DisplayQr) (run_trace (timeout_handler_thread now) s).

(** Whether a run of [capture_image] gets as far as its locked reset. *)
Definition capture_completes (w : world) : bool :=
  match w_camera_start w, w_camera_capture_file w, w_camera_stop w with
  | None, None, None => true
  | _, _, _ => false
  end.

(** ** Presence tracking *)


(** ** The invariant of the reachable states *)

(** While a card is tracked, no removal is pending and neither action flag
    is set. *)
Definition present_clean (s : state) : Prop :=
  current_card s <> None ->
  last_removed_time s = None /\ image_captured s = false
  /\ qr_displayed s = false.

(** ** Removal episodes *)

(** What one iteration of the timeout handler did. *)
Record poll_outcome : Type := mkPoll {
  poll_now : Q;
  poll_capture : bool;     (* capture_image was spawned *)
  poll_qr : bool           (* display_qr was spawned *)
}.

(** The polls of the episode that is open in [s]: [ops] is followed for as
    long as [last_removed_time] stays set, and every iteration of the
    timeout handler met on the way is recorded. *)
Fixpoint episode_polls (s : state) (ops : list op) : list poll_outcome :=
  match ops with
  | [] => []
  | o :: ops' =>
      match last_removed_time s with
      | None => []
      | Some _ =>
          match o with
          | Poll now =>
              mkPoll now (capture_started s now) (qr_started s now)
              :: episode_polls (step s o) ops'
          | _ => episode_polls (step s o) ops'
          end
      end
  end.

Definition captures (polls : list poll_outcome) : nat :=
  List.length (filter poll_capture polls).

(** [s] is inside the episode opened at [t0]. *)
Definition in_episode (t0 : Q) (s : state) : Prop :=
  current_card s = None /\ last_removed_time s = Some t0.

(** ** The lock and the slow steps *)

(** Camera use, OLED rendering and sleeping are the steps that take time. *)
Definition blocking (e : event) : bool :=
  match e with
  | EvSleep _ => true
  | EvDrawText _ _ _ | EvDrawRectangle | EvDrawBitmap _ _ | EvDeviceClear => true
  | EvCameraStart | EvCameraCapture _ | EvCameraStop => true
  | _ => false
  end.

(** [lock_discipline held tr]: no slow step of [tr] happens while
    [state_lock] is held, [held] telling whether it is at the start. *)
Fixpoint lock_discipline (held : bool) (tr : trace) : bool :=
  match tr with
  | [] => true
  | EvAcquire :: tr' => lock_discipline true tr'
  | EvRelease :: tr' => lock_discipline false tr'
  | e :: tr' => negb (held && blocking e) && lock_discipline held tr'
  end.

(** Taking [state_lock]. *)
Definition is_acquire (e : event) : bool :=
  match e with
  | EvAcquire => true
  | _ => false
  end.

(** ** Files written *)

Definition written_file (e : event) : option string :=
  match e with
  | EvFileSave path => Some path
  | EvCameraCapture path => Some path
  | _ => None
  end.

Fixpoint files_written (tr : trace) : list string :=
  match tr with
  | [] => []
  | e :: tr' =>
      match written_file e with
      | Some path => path :: files_written tr'
      | None => files_written tr'
      end
  end.

(** A file of the image directory named after a capture timestamp. *)
Definition is_captured_image (path : string) : Prop :=
  exists timestamp,
    path = (IMAGE_DIRECTORY ++ "/image_" ++ timestamp ++ ".jpg")%string.

(** ** Failures of the QR action *)

(** The exception the [try] body of [display_qr] raises in world [w], if
    any: from reading the file, from the encoder, from saving the image,
    from drawing the bitmap or from clearing the display after the hold,
    in the order the body reaches them. *)
Definition qr_failure (w : world) : option exn :=
  match w_file_read w with
  | Raised e => Some e
  | Returned raw =>
      match w_qr_make w (strip raw) with
      | Raised e => Some e
      | Returned _ =>
          match w_img_save w with
          | Some e => Some e
          | None =>
              match w_draw_bitmap w with
              | Some e => Some e
              | None => w_clear_native w
              end
          end
      end
  end.

(** ** Sample worlds and states *)

Definition world_ok : world :=
  {| w_file_read := Returned (text_of_string "door opened at 12:00");
     w_qr_make := fun _ => Returned (mkImage 27 27);
     w_img_save := None;
     w_draw_bitmap := None;
     w_clear_native := None;
     w_clear_handler := None;
     w_strftime := "20250101-120000";
     w_camera_start := None;
     w_camera_capture_file := None;
     w_camera_stop := None |}.

Definition world_camera_fails : world :=
  {| w_file_read := w_file_read world_ok;
     w_qr_make := w_qr_make world_ok;
     w_img_save := None;
     w_draw_bitmap := None;
     w_clear_native := None;
     w_clear_handler := None;
     w_strftime := "20250101-120000";
     w_camera_start := None;
     w_camera_capture_file := Some (Exception "camera timeout");
     w_camera_stop := None |}.

Definition world_file_missing : world :=
  {| w_file_read := Raised (Exception "No such file or directory");
     w_qr_make := w_qr_make world_ok;
     w_img_save := None;
     w_draw_bitmap := None;
     w_clear_native := None;
     w_clear_handler := None;
     w_strftime := "20250101-120000";
     w_camera_start := None;
     w_camera_capture_file := None;
     w_camera_stop := None |}.

(** The OLED is off the bus: every write to it raises. *)
Definition display_down : display :=
  {| d_draw_text := Some (Exception "I2C write failed");
     d_draw_rectangle := Some (Exception "I2C write failed") |}.

Definition world_display_down : world :=
  {| w_file_read := w_file_read world_ok;
     w_qr_make := w_qr_make world_ok;
     w_img_save := None;
     w_draw_bitmap := Some (Exception "I2C write failed");
     w_clear_native := Some (Exception "I2C write failed");
     w_clear_handler := Some (Exception "I2C write failed");
     w_strftime := "20250101-120000";
     w_camera_start := None;
     w_camera_capture_file := None;
     w_camera_stop := None |}.

(** Card 42 on the reader. *)
Definition state_card_42 : state := step init_state (Scan (Some 42) 0).

(** The authorized card on the reader. *)
Definition state_card_authorized : state :=
  step init_state (Scan (Some AUTHORIZED_ID) 0).

(** Card 42 removed at time 1, not polled yet. *)
Definition state_removed_42 : state :=
  run init_state [Scan (Some 42) 0; Scan None 1].

(** Card 42 removed at time 1, capture started by the poll at time 6. *)
Definition state_capture_pending : state :=
  run init_state [Scan (Some 42) 0; Scan None 1; Poll 6].

(** ** Whole runs *)

(** The steps performed by a sequence of accesses, one access after the
    other. *)
Fixpoint run_events (s : state) (ops : list op) : trace :=
  match ops with
  | [] => []
  | o :: ops' => run_trace (perform o) s ++ run_events (step s o) ops'
  end.

Definition count_spawns (t : target) (tr : trace) : nat :=
  List.length (filter (is_spawn t) tr).

(** The reader iterations of [ops], run from [s], that find a tracked card
    gone; [authorized_removals] counts those of the authorized card. *)
Fixpoint removals (s : state) (ops : list op) : nat :=
  match ops with
  | [] => 0%nat
  | o :: ops' =>
      (match o, current_card s with
       | Scan None _, Some _ => 1
       | _, _ => 0
       end + removals (step s o) ops')%nat
  end.

Fixpoint authorized_removals (s : state) (ops : list op) : nat :=
  match ops with
  | [] => 0%nat
  | o :: ops' =>
      (match o, current_card s with
       | Scan None _, Some c => if (c =? AUTHORIZED_ID)%Z then 1 else 0
       | _, _ => 0
       end + authorized_removals (step s o) ops')%nat
  end.

Definition qr_displays (polls : list poll_outcome) : nat :=
  List.length (filter poll_qr polls).

(** The messages drawn on the OLED, and the positions of the bitmaps. *)
Fixpoint shown_texts (tr : trace) : list string :=
  match tr with
  | [] => []
  | EvDrawText _ _ msg :: tr' => msg :: shown_texts tr'
  | _ :: tr' => shown_texts tr'
  end.

Fixpoint drawn_bitmaps (tr : trace) : list (Z * Z) :=
  match tr with
  | [] => []
  | EvDrawBitmap x y :: tr' => (x, y) :: drawn_bitmaps tr'
  | _ :: tr' => drawn_bitmaps tr'
  end.

Definition is_device_clear (e : event) : bool :=
  match e with
  | EvDeviceClear => true
  | _ => false
  end.

Definition is_camera_stop (e : event) : bool :=
  match e with
  | EvCameraStop => true
  | _ => false
  end.

(** An access other than a reader iteration that reads no card or a card
    other than [id]. *)
Definition reads_only (id : Z) (o : op) : bool :=
  match o with
  | Scan (Some i) _ => i =? id
  | Scan None _ => false
  | _ => true
  end.

(** An access that neither presents a card nor completes a capture. *)
Definition quiet (o : op) : bool :=
  match o with
  | Scan (Some _) _ => false
  | Capture w => negb (capture_completes w)
  | _ => true
  end.

(** Actions the pending removal is still owed: 1 while [capture_image]
    (for [qr_due]: [display_qr]) can still be started for it, else 0. *)
Definition capture_due (s : state) : nat :=
  match last_removed_time s with
  | Some _ => if image_captured s then 0%nat else 1%nat
  | None => 0%nat
  end.

Definition qr_due (s : state) : nat :=
  match last_removed_time s with
  | Some _ =>
      if last_removed_authorized s && negb (qr_displayed s)
      then 1%nat else 0%nat
  | None => 0%nat
  end.

Definition notification (id : Z) : string :=
  if id =? AUTHORIZED_ID then "AUTHORIZED" else "UNAUTHORIZED".

(** * Proofs *)

(** ** Equations of the atomic accesses *)

Lemma step_scan_present s id now :
  step s (Scan (Some id) now) =
  if card_differs (current_card s) id then
    {| current_card := Some id;
       last_removed_time := None;
       last_removed_authorized := last_removed_authorized s;
       image_captured := false;
       qr_displayed := false |}
  else s.
Proof.
  unfold step, run_state; cbn.
  unfold rfid_reader_thread, with_state_lock, bind; cbn.
  destruct (card_differs (current_card s) id); [|reflexivity].
  destruct (id =? AUTHORIZED_ID); reflexivity.
Qed.

Lemma step_scan_absent s now :
  step s (Scan None now) =
  match current_card s with
  | Some c =>
      {| current_card := None;
         last_removed_time := Some now;
         last_removed_authorized := (c =? AUTHORIZED_ID);
         image_captured := image_captured s;
         qr_displayed := qr_displayed s |}
  | None => s
  end.
Proof.
  unfold step, run_state; cbn.
  unfold rfid_reader_thread, with_state_lock, bind; cbn.
  destruct (current_card s); reflexivity.
Qed.

(** A reader iteration that reads a card, whatever the OLED answers. *)
Lemma reader_iteration_result d id now s :
  run_result (rfid_reader_thread d (Some id) now) s =
  if card_differs (current_card s) id then
    match display_raises d with
    | Some e => Raised e
    | None => Returned tt
    end
  else Returned tt.
Proof.
  unfold run_result, rfid_reader_thread, with_state_lock, bind,
    display_message, display_raises, extern; cbn.
  destruct (card_differs (current_card s) id); [|reflexivity].
  destruct (id =? AUTHORIZED_ID), (d_draw_text d), (d_draw_rectangle d);
    reflexivity.
Qed.

Lemma reader_iteration_state d id now s :
  run_state (rfid_reader_thread d (Some id) now) s =
  if card_differs (current_card s) id then
    match display_raises d with
    | Some _ =>
        {| current_card := Some id;
           last_removed_time := last_removed_time s;
           last_removed_authorized := last_removed_authorized s;
           image_captured := image_captured s;
           qr_displayed := qr_displayed s |}
    | None =>
        {| current_card := Some id;
           last_removed_time := None;
           last_removed_authorized := last_removed_authorized s;
           image_captured := false;
           qr_displayed := false |}
    end
  else s.
Proof.
  unfold run_state, rfid_reader_thread, with_state_lock, bind,
    display_message, display_raises, extern; cbn.
  destruct (card_differs (current_card s) id); [|reflexivity].
  destruct (id =? AUTHORIZED_ID), (d_draw_text d), (d_draw_rectangle d);
    reflexivity.
Qed.

Lemma step_poll s now :
  step s (Poll now) =
  match last_removed_time s with
  | Some t0 =>
      {| current_card := current_card s;
         last_removed_time := Some t0;
         last_removed_authorized := last_removed_authorized s;
         image_captured :=
           image_captured s || Qle_bool 5 (now - t0);
         qr_displayed :=
           qr_displayed s
           || last_removed_authorized s && Qle_bool 6 (now - t0) |}
  | None => s
  end.
Proof.
  unfold step, run_state; cbn.
  unfold timeout_handler_thread, with_state_lock, bind; cbn.
  destruct s as [c [t0|] a ic qd]; cbn; [|reflexivity].
  destruct (Qle_bool 5 (now - t0)), ic, a, (Qle_bool 6 (now - t0)), qd;
    reflexivity.
Qed.

Lemma capture_started_eq s now :
  capture_started s now =
  match last_removed_time s with
  | Some t0 => Qle_bool 5 (now - t0) && negb (image_captured s)
  | None => false
  end.
Proof.
  unfold capture_started, run_trace, timeout_handler_thread,
    with_state_lock, bind; cbn.
  destruct s as [c [t0|] a ic qd]; cbn; [|reflexivity].
  destruct (Qle_bool 5 (now - t0)), ic, a, (Qle_bool 6 (now - t0)), qd;
    reflexivity.
Qed.

Lemma qr_started_eq s now :
  qr_started s now =
  match last_removed_time s with
  | Some t0 =>
      last_removed_authorized s && Qle_bool 6 (now - t0)
      && negb (qr_displayed s)
  | None => false
  end.
Proof.
  unfold qr_started, run_trace, timeout_handler_thread,
    with_state_lock, bind; cbn.
  destruct s as [c [t0|] a ic qd]; cbn; [|reflexivity].
  destruct (Qle_bool 5 (now - t0)), ic, a, (Qle_bool 6 (now - t0)), qd;
    reflexivity.
Qed.

Lemma step_capture s w :
  step s (Capture w) =
  if capture_completes w then
    {| current_card := current_card s;
       last_removed_time := None;
       last_removed_authorized := last_removed_authorized s;
       image_captured := false;
       qr_displayed := false |}
  else s.
Proof.
  unfold step, run_state, capture_completes; cbn.
  unfold capture_image, with_state_lock, bind, extern; cbn.
  destruct (w_camera_start w), (w_camera_capture_file w), (w_camera_stop w);
    reflexivity.
Qed.

Ltac qr_cases w :=
  unfold display_qr, try_except, bind, extern_value, generate_qr_code,
    display_qr_native, lift, extern;
  destruct (w_file_read w) as [?raw|?e]; cbn;
  [destruct (w_qr_make w (strip raw)) as [?img|?e]; cbn;
   [destruct (w_img_save w) as [?e|]; cbn;
    [|destruct (w_draw_bitmap w) as [?e|]; cbn;
      [|destruct (w_clear_native w) as [?e|]; cbn]]|]|];
  destruct (w_clear_handler w) as [?e|]; cbn.

Lemma display_qr_state w s : run_state (display_qr w) s = s.
Proof. unfold run_state. qr_cases w; reflexivity. Qed.


Lemma step_qr s w : step s (Qr w) = s.
Proof. unfold step; cbn. apply display_qr_state. Qed.

(** ** Presence tracking: the card after a step *)

Lemma card_differs_false c id : card_differs c id = false -> c = Some id.
Proof.
  destruct c as [c|]; cbn; [|discriminate].
  intros H. apply negb_false_iff, Z.eqb_eq in H. now subst.
Qed.

Lemma step_current_card s o :
  current_card (step s o) =
  match o with
  | Scan id _ => id
  | _ => current_card s
  end.
Proof.
  destruct o as [[id|] now|now|w|w].
  - rewrite step_scan_present.
    destruct (card_differs (current_card s) id) eqn:E; [reflexivity|].
    now apply card_differs_false.
  - rewrite step_scan_absent.
    destruct (current_card s) eqn:E; [reflexivity|exact E].
  - rewrite step_poll. destruct (last_removed_time s); reflexivity.
  - rewrite step_capture. destruct (capture_completes w); reflexivity.
  - now rewrite step_qr.
Qed.

(** ** The invariant is inductive *)

Lemma present_clean_init : present_clean init_state.
Proof. intros H. now contradiction H. Qed.

Lemma present_clean_step s o : present_clean s -> present_clean (step s o).
Proof.
  unfold present_clean. intros I.
  destruct o as [[id|] now|now|w|w].
  - rewrite step_scan_present.
    destruct (card_differs (current_card s) id); cbn; [auto|exact I].
  - rewrite step_scan_absent.
    destruct (current_card s) eqn:E; cbn; [congruence|].
    rewrite E. intros H. now contradiction H.
  - rewrite step_poll.
    destruct (last_removed_time s) eqn:E; [|rewrite E; exact I].
    cbn. intros H. destruct (I H) as [F _]. discriminate.
  - rewrite step_capture. destruct (capture_completes w); cbn; [|exact I].
    auto.
  - now rewrite step_qr.
Qed.

Lemma reachable_present_clean s : reachable s -> present_clean s.
Proof.
  induction 1 as [|s o _ IH].
  - apply present_clean_init.
  - now apply present_clean_step.
Qed.

(** While the reader thread runs, that is, as long as no call of
    [display_message] has raised, a tracked card means that no removal is
    pending. *)
Lemma removal_cleared_while_reader_runs s :
  reachable s -> current_card s <> None -> last_removed_time s = None.
Proof.
  intros R H. now destruct (reachable_present_clean s R H).
Qed.

Lemma reachable_run s ops : reachable s -> reachable (run s ops).
Proof.
  revert s. induction ops as [|o ops IH]; intros s R; cbn; [exact R|].
  apply IH. now constructor.
Qed.

(** ** Episodes: what the steps of an open episode preserve *)

Lemma episode_polls_closed s ops :
  last_removed_time s = None -> episode_polls s ops = [].
Proof. intros H. destruct ops; cbn; [reflexivity|]. now rewrite H. Qed.

Lemma episode_opened s c t0 :
  current_card s = Some c ->
  in_episode t0 (step s (Scan None t0))
  /\ last_removed_authorized (step s (Scan None t0)) = (c =? AUTHORIZED_ID)
  /\ image_captured (step s (Scan None t0)) = image_captured s.
Proof.
  intros H. rewrite step_scan_absent, H. cbn. repeat split.
Qed.

(** A step that leaves the episode open keeps its timestamp and its
    authorization flag, and can only raise [image_captured]. *)
Lemma episode_step t0 s o :
  in_episode t0 s ->
  last_removed_time (step s o) <> None ->
  in_episode t0 (step s o)
  /\ last_removed_authorized (step s o) = last_removed_authorized s
  /\ image_captured (step s o) =
     match o with
     | Poll now => image_captured s || Qle_bool 5 (now - t0)
     | _ => image_captured s
     end.
Proof.
  intros [Hc Ht] Hopen. unfold in_episode.
  destruct o as [[id|] now|now|w|w].
  - rewrite step_scan_present, Hc in Hopen. cbn in Hopen. now contradiction Hopen.
  - rewrite step_scan_absent, Hc. auto.
  - rewrite step_poll, Ht. cbn. auto.
  - rewrite step_capture in *. destruct (capture_completes w); [|auto].
    cbn in Hopen. now contradiction Hopen.
  - rewrite step_qr. auto.
Qed.

Lemma Qle_bool_false x y : (y < x)%Q -> Qle_bool x y = false.
Proof.
  intros H. destruct (Qle_bool x y) eqn:E; [|reflexivity].
  apply Qle_bool_iff in E. exfalso. exact (Qlt_not_le _ _ H E).
Qed.

(** Every poll recorded for an episode was made in a state of that
    episode, and in one that satisfies whatever the steps of the episode
    preserve. *)
Lemma episode_polls_inv (P : state -> Prop) t0 :
  (forall s o, in_episode t0 s -> P s ->
               in_episode t0 (step s o) -> P (step s o)) ->
  forall ops s p,
    in_episode t0 s -> P s -> In p (episode_polls s ops) ->
    exists s', in_episode t0 s' /\ P s'
               /\ poll_capture p = capture_started s' (poll_now p)
               /\ poll_qr p = qr_started s' (poll_now p).
Proof.
  intros Pstep. induction ops as [|o ops IH]; intros s p E HP Hin; cbn in Hin.
  - contradiction.
  - assert (Hnext : In p (episode_polls (step s o) ops) ->
                    exists s', in_episode t0 s' /\ P s'
                      /\ poll_capture p = capture_started s' (poll_now p)
                      /\ poll_qr p = qr_started s' (poll_now p)).
    { intros Hin'.
      destruct (last_removed_time (step s o)) eqn:Ht'.
      - assert (E' : in_episode t0 (step s o)).
        { apply episode_step; [exact E|congruence]. }
        apply (IH (step s o)); auto.
      - rewrite episode_polls_closed in Hin' by exact Ht'. contradiction. }
    destruct E as [Hc Ht]. rewrite Ht in Hin.
    destruct o as [id now|now|w|w]; auto.
    destruct Hin as [<-|Hin]; [|auto].
    exists s. cbn. repeat split; auto.
Qed.

Lemma in_episode_open t0 s : in_episode t0 s -> last_removed_time s <> None.
Proof. intros [_ H]. congruence. Qed.

Lemma unauthorized_never_qr t0 ops s p :
  in_episode t0 s -> last_removed_authorized s = false ->
  In p (episode_polls s ops) -> poll_qr p = false.
Proof.
  intros E Ha Hin.
  destruct (episode_polls_inv (fun s => last_removed_authorized s = false) t0)
    with (ops := ops) (s := s) (p := p) as (s' & [_ Ht] & Ha' & _ & ->); auto.
  - intros s1 o E1 H1 E2.
    destruct (episode_step t0 s1 o E1) as (_ & -> & _); [|exact H1].
    now apply in_episode_open with t0.
  - now rewrite qr_started_eq, Ht, Ha'.
Qed.

Lemma early_poll_no_capture t0 ops s p :
  in_episode t0 s -> In p (episode_polls s ops) ->
  (poll_now p - t0 < 5)%Q -> poll_capture p = false.
Proof.
  intros E Hin Hlt.
  destruct (episode_polls_inv (fun _ => True) t0)
    with (ops := ops) (s := s) (p := p) as (s' & [_ Ht] & _ & -> & _); auto.
  rewrite capture_started_eq, Ht, Qle_bool_false by exact Hlt. reflexivity.
Qed.

Lemma captured_no_recapture t0 ops s p :
  in_episode t0 s -> image_captured s = true ->
  In p (episode_polls s ops) -> poll_capture p = false.
Proof.
  intros E Hi Hin.
  destruct (episode_polls_inv (fun s => image_captured s = true) t0)
    with (ops := ops) (s := s) (p := p) as (s' & [_ Ht] & Hi' & -> & _); auto.
  - intros s1 o E1 H1 E2.
    destruct (episode_step t0 s1 o E1) as (_ & _ & ->).
    + now apply in_episode_open with t0.
    + rewrite H1. now destruct o.
  - rewrite capture_started_eq, Ht, Hi'. apply andb_false_r.
Qed.

Lemma captures_none polls :
  (forall p, In p polls -> poll_capture p = false) -> captures polls = 0%nat.
Proof.
  unfold captures. induction polls as [|p polls IH]; intros H; cbn.
  - reflexivity.
  - rewrite (H p) by now left. apply IH. intros q Hq. apply H. now right.
Qed.

(** Within one episode the capture is started at most once, and exactly
    once when some poll of the episode comes at or after the delay. *)
Lemma episode_captures t0 ops : forall s,
  in_episode t0 s -> image_captured s = false ->
  (captures (episode_polls s ops) <= 1)%nat
  /\ (captures (episode_polls s ops) = 1%nat <->
      exists p, In p (episode_polls s ops) /\ (5 <= poll_now p - t0)%Q).
Proof.
  induction ops as [|o ops IH]; intros s E Hi.
  - cbn. split; [lia|]. split; [discriminate|]. intros (p & [] & _).
  - assert (Hskip : image_captured (step s o) = false ->
        (captures (episode_polls (step s o) ops) <= 1)%nat
        /\ (captures (episode_polls (step s o) ops) = 1%nat <->
            exists p, In p (episode_polls (step s o) ops)
                      /\ (5 <= poll_now p - t0)%Q)).
    { intros Hi'. destruct (last_removed_time (step s o)) eqn:Ht'.
      - apply IH; [|exact Hi'].
        apply episode_step; [exact E|congruence].
      - rewrite episode_polls_closed by exact Ht'. cbn.
        split; [lia|]. split; [discriminate|]. intros (p & [] & _). }
    pose proof E as [Hc Ht]. cbn. rewrite Ht.
    destruct o as [id now|now|w|w].
    + apply Hskip. destruct id as [id|].
      * rewrite step_scan_present, Hc. reflexivity.
      * rewrite step_scan_absent, Hc. exact Hi.
    + rewrite capture_started_eq, Ht, Hi, andb_true_r.
      destruct (Qle_bool 5 (now - t0)) eqn:Q5.
      * (* this poll starts the capture; no later one does *)
        assert (Z0 : captures (episode_polls (step s (Poll now)) ops) = 0%nat).
        { apply captures_none. intros p Hp.
          destruct (last_removed_time (step s (Poll now))) eqn:Ht'.
          - apply captured_no_recapture with t0 ops (step s (Poll now)); auto.
            + apply episode_step; [exact E|congruence].
            + rewrite step_poll, Ht. cbn. now rewrite Q5, orb_true_r.
          - rewrite episode_polls_closed in Hp by exact Ht'. contradiction. }
        unfold captures in *. cbn. rewrite Z0. split; [lia|].
        split; [|reflexivity]. intros _.
        eexists. split; [left; reflexivity|]. cbn. now apply Qle_bool_iff.
      * (* too early: the flag stays down *)
        assert (Hi' : image_captured (step s (Poll now)) = false).
        { rewrite step_poll, Ht. cbn. now rewrite Hi, Q5. }
        destruct (Hskip Hi') as [Hle Hiff].
        unfold captures in *. cbn. split; [exact Hle|].
        rewrite Hiff. split.
        -- intros (p & Hp & H5). exists p. auto.
        -- intros (p & [<-|Hp] & H5).
           ++ cbn in H5. apply Qle_bool_iff in H5. congruence.
           ++ exists p. auto.
    + apply Hskip. rewrite step_capture.
      destruct (capture_completes w); [reflexivity|exact Hi].
    + apply Hskip. now rewrite step_qr.
Qed.

Lemma quiet_step_open t0 s o :
  in_episode t0 s -> quiet o = true -> last_removed_time (step s o) <> None.
Proof.
  intros [Hc Ht] Hq.
  destruct o as [[id|] now|now|w|w]; cbn in Hq; try discriminate Hq.
  - rewrite step_scan_absent, Hc. congruence.
  - rewrite step_poll, Ht. discriminate.
  - rewrite step_capture. apply negb_true_iff in Hq. rewrite Hq. congruence.
  - rewrite step_qr. congruence.
Qed.

(** As long as the episode is left open and every poll comes before the
    delay, the capture stays due. *)
Lemma early_polls_keep_capture_due t0 ops : forall s,
  in_episode t0 s -> image_captured s = false ->
  forallb quiet ops = true ->
  (forall p, In p (episode_polls s ops) -> (poll_now p - t0 < 5)%Q) ->
  in_episode t0 (run s ops) /\ image_captured (run s ops) = false.
Proof.
  induction ops as [|o ops IH]; intros s E Hi Hq Hearly; [now split|].
  cbn in Hq. apply andb_true_iff in Hq. destruct Hq as [Hqo Hq].
  pose proof (quiet_step_open t0 s o E Hqo) as Hopen.
  destruct (episode_step t0 s o E Hopen) as (E' & _ & Hi').
  pose proof E as [_ Ht]. cbn [episode_polls] in Hearly. rewrite Ht in Hearly.
  cbn [run fold_left]. fold (run (step s o) ops).
  apply IH; auto.
  - rewrite Hi', Hi. destruct o as [id now|now|w|w]; try reflexivity.
    cbn [orb]. apply Qle_bool_false.
    apply (Hearly (mkPoll now (capture_started s now) (qr_started s now))).
    now left.
  - intros p Hp. apply Hearly.
    destruct o as [id now|now|w|w]; auto. now right.
Qed.

Lemma poll_after_delay_fires t0 s now :
  in_episode t0 s -> image_captured s = false ->
  (5 <= now - t0)%Q -> capture_started s now = true.
Proof.
  intros [_ Ht] Hi H5. rewrite capture_started_eq, Ht, Hi, andb_true_r.
  now apply Qle_bool_iff.
Qed.

Lemma poll_at_threshold_fires t0 s now :
  in_episode t0 s -> image_captured s = false ->
  (now - t0 == 5)%Q -> capture_started s now = true.
Proof.
  intros [_ Ht] Hi H5. rewrite capture_started_eq, Ht, Hi, andb_true_r.
  apply Qle_bool_iff. rewrite H5. apply Qle_refl.
Qed.

(** ** The lock in each thread function *)

Lemma lock_discipline_poll now s :
  lock_discipline false (run_trace (timeout_handler_thread now) s) = true.
Proof.
  unfold run_trace, timeout_handler_thread, with_state_lock, bind; cbn.
  destruct s as [c [t0|] a ic qd]; cbn; [|reflexivity].
  destruct (Qle_bool 5 (now - t0)), ic, a, (Qle_bool 6 (now - t0)), qd;
    reflexivity.
Qed.

Lemma lock_discipline_capture w s :
  lock_discipline false (run_trace (capture_image w) s) = true.
Proof.
  unfold run_trace, capture_image, with_state_lock, bind, extern; cbn.
  destruct (w_camera_start w), (w_camera_capture_file w), (w_camera_stop w);
    reflexivity.
Qed.

Lemma lock_discipline_qr w s :
  lock_discipline false (run_trace (display_qr w) s) = true.
Proof. unfold run_trace. qr_cases w; reflexivity. Qed.

Lemma lock_discipline_scan_absent d now s :
  lock_discipline false (run_trace (rfid_reader_thread d None now) s) = true.
Proof.
  unfold run_trace, rfid_reader_thread, with_state_lock, bind; cbn.
  destruct (current_card s); reflexivity.
Qed.

Lemma lock_discipline_scan_same d id now s :
  current_card s = Some id ->
  lock_discipline false (run_trace (rfid_reader_thread d (Some id) now) s)
  = true.
Proof.
  intros H.
  unfold run_trace, rfid_reader_thread, with_state_lock, bind; cbn.
  rewrite H. cbn. rewrite Z.eqb_refl. reflexivity.
Qed.

(** Every arrival of a card renders and sleeps before the lock is let go. *)
Lemma lock_held_on_arrival id now s :
  card_differs (current_card s) id = true ->
  lock_discipline false
    (run_trace (rfid_reader_thread display_works (Some id) now) s) = false.
Proof.
  intros H.
  unfold run_trace, rfid_reader_thread, with_state_lock, bind; cbn.
  rewrite H. destruct (id =? AUTHORIZED_ID); reflexivity.
Qed.

(** ** A capture that does not complete *)

Lemma capture_failure_skips_reset w s :
  capture_completes w = false ->
  run_state (capture_image w) s = s
  /\ existsb is_acquire (run_trace (capture_image w) s) = false
  /\ exists e, run_result (capture_image w) s = Raised e.
Proof.
  unfold capture_completes, run_state, run_trace, run_result, capture_image,
    with_state_lock, bind, extern; cbn.
  destruct (w_camera_start w) as [e1|], (w_camera_capture_file w) as [e2|],
    (w_camera_stop w) as [e3|]; cbn; intros H; try discriminate H;
    repeat split; eauto.
Qed.

(** ** The QR action *)

Lemma qr_failure_cases w :
  (forall e, w_file_read w = Raised e -> qr_failure w = Some e)
  /\ (forall raw e, w_file_read w = Returned raw ->
                    w_qr_make w (strip raw) = Raised e ->
                    qr_failure w = Some e)
  /\ (forall raw img e, w_file_read w = Returned raw ->
                        w_qr_make w (strip raw) = Returned img ->
                        w_img_save w = Some e -> qr_failure w = Some e)
  /\ (forall raw img e, w_file_read w = Returned raw ->
                        w_qr_make w (strip raw) = Returned img ->
                        w_img_save w = None ->
                        w_draw_bitmap w = Some e -> qr_failure w = Some e)
  /\ (forall raw img e, w_file_read w = Returned raw ->
                        w_qr_make w (strip raw) = Returned img ->
                        w_img_save w = None -> w_draw_bitmap w = None ->
                        w_clear_native w = Some e -> qr_failure w = Some e).
Proof.
  unfold qr_failure. repeat split; intros.
  - now rewrite H.
  - now rewrite H, H0.
  - now rewrite H, H0, H1.
  - now rewrite H, H0, H1, H2.
  - now rewrite H, H0, H1, H2, H3.
Qed.


(** ** Files written by each thread function *)

Lemma files_written_scan id now s :
  files_written (run_trace (rfid_reader_thread display_works id now) s) = [].
Proof.
  unfold run_trace, rfid_reader_thread, with_state_lock, bind; cbn.
  destruct id as [id|]; cbn.
  - destruct (card_differs (current_card s) id); cbn; [|reflexivity].
    destruct (id =? AUTHORIZED_ID); reflexivity.
  - destruct (current_card s); reflexivity.
Qed.

Lemma files_written_poll now s :
  files_written (run_trace (timeout_handler_thread now) s) = [].
Proof.
  unfold run_trace, timeout_handler_thread, with_state_lock, bind; cbn.
  destruct s as [c [t0|] a ic qd]; cbn; [|reflexivity].
  destruct (Qle_bool 5 (now - t0)), ic, a, (Qle_bool 6 (now - t0)), qd;
    reflexivity.
Qed.

Lemma files_written_capture w s path :
  In path (files_written (run_trace (capture_image w) s)) ->
  path = (IMAGE_DIRECTORY ++ "/image_" ++ w_strftime w ++ ".jpg")%string.
Proof.
  unfold run_trace, capture_image, with_state_lock, bind, extern; cbn.
  destruct (w_camera_start w), (w_camera_capture_file w), (w_camera_stop w);
    cbn; intros H; repeat (destruct H as [H|H]; [now subst|]); contradiction.
Qed.

Lemma files_written_qr w s path :
  In path (files_written (run_trace (display_qr w) s)) -> path = SAVE_PATH.
Proof.
  unfold run_trace. qr_cases w;
    intros H; repeat (destruct H as [H|H]; [now subst|]); contradiction.
Qed.

Lemma save_path_not_captured_image : ~ is_captured_image SAVE_PATH.
Proof. intros [timestamp H]. cbn in H. discriminate H. Qed.

(** ** Runs on concrete inputs *)

(** Card 42 read twice, then gone at time 1: the poll 5.1 s later starts
    the capture, once, and never the QR display. *)
Example unauthorized_episode :
  episode_polls (run init_state [Scan (Some 42) 0; Scan (Some 42) 0;
                                 Scan None 1])
    [Scan None 2; Poll 3; Scan None 4; Poll (61 # 10); Poll 8]
  = [mkPoll 3 false false; mkPoll (61 # 10) true false; mkPoll 8 false false].
Proof. reflexivity. Qed.

(** The authorized card removed at time 1: capture at 5 s, QR at 6 s, each
    once; the episode ends when the capture action completes. *)
Example authorized_episode :
  episode_polls (step state_card_authorized (Scan None 1))
    [Poll 5; Poll 6; Poll 7; Poll 8; Capture world_ok; Poll 30]
  = [mkPoll 5 false false; mkPoll 6 true false; mkPoll 7 false true;
     mkPoll 8 false false].
Proof. reflexivity. Qed.

(** A card coming back before the delay closes the episode; the polls that
    follow start nothing. *)
Example rearrival_clears_episode :
  run state_card_42 [Scan None 1; Poll 3; Scan (Some 42) 4; Poll 9]
  = state_card_42
  /\ capture_started state_card_42 9 = false.
Proof. split; reflexivity. Qed.

Example display_qr_ok :
  display_qr world_ok init_state =
  ([EvFileRead "/home/soham/examplelog.txt";
    EvPrint "Data length: 20 characters";
    EvFileSave "/home/soham/qr_debug.png";
    EvPrint "✅ QR saved to /home/soham/qr_debug.png (Dimensions: (27, 27))";
    EvDrawBitmap 50 18;
    EvPrint "Displaying QR at native resolution (position: 50, 18)";
    EvSleep 5;
    EvDeviceClear],
   Returned tt, init_state).
Proof. reflexivity. Qed.

(** Leading newline and space, trailing space, no-break space and em
    space are stripped; the inner space stays. *)
Example strip_both_ends :
  strip (10%N :: 32%N :: text_of_string "a b" ++ [32%N; 160%N; 8195%N])
  = text_of_string "a b".
Proof. reflexivity. Qed.

(** [display_qr] is started in episodes of the authorized card only. *)
Lemma code_display_implies_authorized s c t0 ops p :
  current_card s = Some c ->
  In p (episode_polls (step s (Scan None t0)) ops) ->
  poll_qr p = true -> c = AUTHORIZED_ID.
Proof.
  intros Hc Hin Hq.
  destruct (episode_opened s c t0 Hc) as (E & Ha & _).
  destruct (c =? AUTHORIZED_ID) eqn:Heq; [now apply Z.eqb_eq|].
  rewrite (unauthorized_never_qr t0 ops _ p E Ha Hin) in Hq. discriminate.
Qed.

(** * Properties of the program *)


(** C2 (invariant I1) fails on the code when [display_message] raises:
    [rfid_reader_thread] assigns [current_card] before the call and resets
    the removal state after it, with no handler in between.  Card 42 is
    removed at time 1 and read again at time 2 with the OLED off the bus:
    the iteration raises, the lock is released, and the globals are left
    with a tracked card and the removal still pending, so that the timeout
    handler starts the capture at time 6 with the card on the reader. *)
Theorem display_failure_leaves_removal_pending :
  reachable state_removed_42
  /\ run_result (rfid_reader_thread display_down (Some 42) 2) state_removed_42
     = Raised (Exception "I2C write failed")
  /\ run_trace (rfid_reader_thread display_down (Some 42) 2) state_removed_42
     = [EvAcquire; EvPrint "Displaying on OLED: UNAUTHORIZED"; EvRelease]
  /\ reader_crash display_down 42 2 state_removed_42
     = {| current_card := Some 42;
          last_removed_time := Some 1%Q;
          last_removed_authorized := false;
          image_captured := false;
          qr_displayed := false |}
  /\ capture_started (reader_crash display_down 42 2 state_removed_42) 6
     = true.
Proof.
  split; [|repeat split].
  apply (reachable_run init_state [Scan (Some 42) 0; Scan None 1]).
  apply reach_init.
Qed.

(** C3, as the claim states it, fails: an episode that a returning card
    closes before the delay has passed sees no capture at all.  Card 42 is
    removed at time 1, polled at times 2 and 3 and back at time 4. *)
Lemma capture_exactly_once_counterexample :
  reachable state_card_42
  /\ current_card state_card_42 = Some 42
  /\ captures (episode_polls (step state_card_42 (Scan None 1))
                 [Poll 2; Poll 3; Scan (Some 42) 4; Poll 9]) <> 1%nat.
Proof.
  split; [apply reach_step, reach_init|].
  split; [reflexivity|].
  vm_compute. discriminate.
Qed.

(** C3, amended. For the episode opened by removing a card at [t0], however
    the accesses that follow are interleaved, [capture_image] is started by
    at most one iteration of the timeout handler, and by exactly one if and
    only if some iteration of the episode comes with [now - t0 >= 5]. *)
Theorem capture_at_most_once_per_episode s c t0 ops :
  reachable s -> current_card s = Some c ->
  (captures (episode_polls (step s (Scan None t0)) ops) <= 1)%nat
  /\ (captures (episode_polls (step s (Scan None t0)) ops) = 1%nat <->
      exists p, In p (episode_polls (step s (Scan None t0)) ops)
                /\ (5 <= poll_now p - t0)%Q).
Proof.
  intros R Hc.
  destruct (episode_opened s c t0 Hc) as (E & _ & Hi).
  apply episode_captures; [exact E|].
  rewrite Hi. apply (reachable_present_clean s R). congruence.
Qed.

Lemma capture_at_most_once_per_episode_witness :
  (captures (episode_polls (step state_card_42 (Scan None 1))
               [Poll 3; Poll 6; Scan None 6; Poll 7]) <= 1)%nat
  /\ (captures (episode_polls (step state_card_42 (Scan None 1))
                  [Poll 3; Poll 6; Scan None 6; Poll 7]) = 1%nat <->
      exists p, In p (episode_polls (step state_card_42 (Scan None 1))
                        [Poll 3; Poll 6; Scan None 6; Poll 7])
                /\ (5 <= poll_now p - 1)%Q).
Proof.
  apply (capture_at_most_once_per_episode state_card_42 42).
  - apply reach_step, reach_init.
  - reflexivity.
Defined.

(** C4 fails on the code at every arrival of a card: [rfid_reader_thread]
    calls [display_message], with its drawing and its two-second sleep,
    inside [with state_lock].  Here card 42 arrives in the initial state. *)
Theorem arrival_notification_under_lock :
  run_trace (rfid_reader_thread display_works (Some 42) 0) init_state =
  [EvAcquire;
   EvPrint "Displaying on OLED: UNAUTHORIZED";
   EvDrawText 30 20 "UNAUTHORIZED";
   EvSleep 2;
   EvDrawRectangle;
   EvRelease;
   EvSleep 0.1]
  /\ lock_discipline false
       (run_trace (rfid_reader_thread display_works (Some 42) 0) init_state)
     = false.
Proof. split; reflexivity. Qed.

(** C5 fails on the code: [capture_image] has no handler around the camera
    calls.  When [picam2.capture_file] raises, the exception leaves the
    function before the locked reset; the removal stays pending with
    [image_captured] set. *)
Theorem failed_capture_leaves_episode_open :
  run_result (capture_image world_camera_fails) state_capture_pending =
  Raised (Exception "camera timeout")
  /\ existsb is_acquire
       (run_trace (capture_image world_camera_fails) state_capture_pending)
     = false
  /\ last_removed_time
       (run_state (capture_image world_camera_fails) state_capture_pending)
     = Some 1%Q
  /\ image_captured
       (run_state (capture_image world_camera_fails) state_capture_pending)
     = true.
Proof. repeat split. Qed.

(** C6. In the episode opened by removing a card whose identifier is not
    [AUTHORIZED_ID], no iteration of the timeout handler starts
    [display_qr], whatever the accesses of the episode are.  Said the other
    way round, [display_qr] is started only in episodes of the authorized
    card. *)
Theorem unauthorized_removal_never_displays_code s c t0 ops p :
  current_card s = Some c -> c <> AUTHORIZED_ID ->
  In p (episode_polls (step s (Scan None t0)) ops) ->
  poll_qr p = false.
Proof.
  intros Hc Hne Hin.
  destruct (episode_opened s c t0 Hc) as (E & Ha & _).
  apply unauthorized_never_qr with t0 ops (step s (Scan None t0)); auto.
  rewrite Ha. now apply Z.eqb_neq.
Qed.

Lemma unauthorized_removal_never_displays_code_witness :
  poll_qr (mkPoll 8 false false) = false.
Proof.
  apply (unauthorized_removal_never_displays_code
           state_card_42 42 1 [Poll 7; Poll 8; Poll 9]).
  - reflexivity.
  - vm_compute. discriminate.
  - vm_compute. right. left. reflexivity.
Defined.

(** C7. In the episode opened by a removal at [t0], an iteration of the
    timeout handler with [now - t0 < 5] never starts the capture, so every
    iteration that starts it has [now - t0 >= 5]; an iteration at exactly
    [now - t0 = 5] does start it when it is the first of the episode; and,
    after any accesses that leave the episode open and whose polls all come
    before the delay, the next iteration with [now - t0 >= 5], the one at
    exactly [5] included, starts it. *)
Theorem capture_delay_threshold s c t0 ops :
  reachable s -> current_card s = Some c ->
  (forall p, In p (episode_polls (step s (Scan None t0)) ops) ->
             (poll_now p - t0 < 5)%Q -> poll_capture p = false)
  /\ (forall p, In p (episode_polls (step s (Scan None t0)) ops) ->
                poll_capture p = true -> (5 <= poll_now p - t0)%Q)
  /\ (forall now, (now - t0 == 5)%Q ->
                  capture_started (step s (Scan None t0)) now = true)
  /\ (forall now,
        forallb quiet ops = true ->
        (forall p, In p (episode_polls (step s (Scan None t0)) ops) ->
                   (poll_now p - t0 < 5)%Q) ->
        (5 <= now - t0)%Q ->
        capture_started (run (step s (Scan None t0)) ops) now = true).
Proof.
  intros R Hc.
  destruct (episode_opened s c t0 Hc) as (E & _ & Hi).
  assert (Hi0 : image_captured (step s (Scan None t0)) = false).
  { rewrite Hi. apply (reachable_present_clean s R). congruence. }
  assert (Hearly : forall p,
             In p (episode_polls (step s (Scan None t0)) ops) ->
             (poll_now p - t0 < 5)%Q -> poll_capture p = false).
  { intros p Hin Hlt.
    now apply early_poll_no_capture with t0 ops (step s (Scan None t0)). }
  split; [exact Hearly|]. split; [|split].
  - intros p Hin Hcap.
    destruct (Qlt_le_dec (poll_now p - t0) 5) as [Hlt|Hle]; [|exact Hle].
    rewrite (Hearly p Hin Hlt) in Hcap. discriminate.
  - intros now H5. now apply poll_at_threshold_fires with t0.
  - intros now Hq Hall H5.
    destruct (early_polls_keep_capture_due t0 ops _ E Hi0 Hq Hall) as [E' Hi'].
    now apply poll_after_delay_fires with t0.
Qed.

Lemma capture_delay_threshold_witness :
  poll_capture (mkPoll (59 # 10) false false) = false
  /\ (5 <= poll_now (mkPoll 6 true false) - 1)%Q
  /\ capture_started (step state_card_42 (Scan None 1)) 6 = true
  /\ capture_started
       (run (step state_card_42 (Scan None 1))
          [Poll 3; Scan None 4; Poll (59 # 10)]) 6 = true.
Proof.
  destruct (capture_delay_threshold state_card_42 42 1
              [Poll (59 # 10); Poll 6; Poll (61 # 10)])
    as (Hearly & Hlate & Hexact & _).
  { apply reach_step, reach_init. }
  { reflexivity. }
  destruct (capture_delay_threshold state_card_42 42 1
              [Poll 3; Scan None 4; Poll (59 # 10)])
    as (_ & _ & _ & Hnext).
  { apply reach_step, reach_init. }
  { reflexivity. }
  split; [|split; [|split]].
  - apply Hearly; [vm_compute; left; reflexivity|reflexivity].
  - apply Hlate; [vm_compute; right; left; reflexivity|reflexivity].
  - apply Hexact. reflexivity.
  - apply Hnext.
    + reflexivity.
    + vm_compute. intros p [<-|[<-|[]]]; reflexivity.
    + vm_compute. discriminate.
Defined.




(** C9, as the claim states it, fails: every run of [display_qr] that gets
    past the encoder saves the QR image to [SAVE_PATH], which is no file of
    the image directory. *)
Lemma qr_debug_image_counterexample :
  In SAVE_PATH (files_written (run_trace (display_qr world_ok) init_state))
  /\ ~ is_captured_image SAVE_PATH.
Proof.
  split; [left; reflexivity|apply save_path_not_captured_image].
Qed.

(** C9, amended. The files the program writes are the captured images,
    [IMAGE_DIRECTORY/image_<timestamp>.jpg] with the timestamp of the
    capture, written by [capture_image], and the QR image at [SAVE_PATH],
    written by [display_qr]; the two loops write no file. *)
Theorem files_written_by_operations o s path :
  In path (files_written (run_trace (perform o) s)) ->
  match o with
  | Capture w =>
      path = (IMAGE_DIRECTORY ++ "/image_" ++ w_strftime w ++ ".jpg")%string
  | Qr _ => path = SAVE_PATH
  | Scan _ _ | Poll _ => False
  end.
Proof.
  destruct o as [id now|now|w|w]; cbn [perform].
  - now rewrite files_written_scan.
  - now rewrite files_written_poll.
  - apply files_written_capture.
  - apply files_written_qr.
Qed.

Lemma files_written_by_operations_witness :
  "/home/soham/captured_images/image_20250101-120000.jpg" =
  (IMAGE_DIRECTORY ++ "/image_" ++ w_strftime world_ok ++ ".jpg")%string.
Proof.
  apply (files_written_by_operations (Capture world_ok) state_capture_pending).
  vm_compute. left. reflexivity.
Defined.

(** C10. The reset at the end of [capture_image] sets [last_removed_time]
    to [None] and both flags to [False] and leaves [current_card] and
    [last_removed_authorized] alone.  [last_removed_authorized] changes
    only in a reader iteration that sees no card while one is tracked,
    which sets it from the card removed; and an iteration of the timeout
    handler with no removal pending does nothing that depends on it. *)
Theorem end_of_episode_frame s :
  (forall w, capture_completes w = true ->
     run_state (capture_image w) s =
     {| current_card := current_card s;
        last_removed_time := None;
        last_removed_authorized := last_removed_authorized s;
        image_captured := false;
        qr_displayed := false |})
  /\ (forall o,
        last_removed_authorized (step s o) <> last_removed_authorized s ->
        exists c now, o = Scan None now /\ current_card s = Some c)
  /\ (forall c now, current_card s = Some c ->
        last_removed_authorized (step s (Scan None now))
        = (c =? AUTHORIZED_ID))
  /\ (forall now, last_removed_time s = None ->
        timeout_handler_thread now s
        = ([EvAcquire; EvRelease; EvSleep 0.1], Returned tt, s)).
Proof.
  repeat split.
  - intros w Hw.
    change (run_state (capture_image w) s) with (step s (Capture w)).
    now rewrite step_capture, Hw.
  - intros o Hne. destruct o as [[id|] now|now|w|w].
    + rewrite step_scan_present in Hne.
      destruct (card_differs (current_card s) id); now contradiction Hne.
    + destruct (current_card s) as [c|] eqn:Hc; [eauto|].
      rewrite step_scan_absent, Hc in Hne. now contradiction Hne.
    + rewrite step_poll in Hne.
      destruct (last_removed_time s); now contradiction Hne.
    + rewrite step_capture in Hne.
      destruct (capture_completes w); now contradiction Hne.
    + rewrite step_qr in Hne. now contradiction Hne.
  - intros c now Hc. now rewrite step_scan_absent, Hc.
  - intros now Ht.
    unfold timeout_handler_thread, with_state_lock, bind; cbn.
    now rewrite Ht.
Qed.

Lemma end_of_episode_frame_witness :
  run_state (capture_image world_ok) state_capture_pending =
  {| current_card := None;
     last_removed_time := None;
     last_removed_authorized := false;
     image_captured := false;
     qr_displayed := false |}
  /\ last_removed_authorized (step state_card_authorized (Scan None 1))
     = (AUTHORIZED_ID =? AUTHORIZED_ID)
  /\ timeout_handler_thread 9 state_card_authorized
     = ([EvAcquire; EvRelease; EvSleep 0.1], Returned tt,
        state_card_authorized).
Proof.
  destruct (end_of_episode_frame state_capture_pending) as (Hreset & _).
  destruct (end_of_episode_frame state_card_authorized)
    as (_ & _ & Hset & Hidle).
  split; [|split].
  - apply (Hreset world_ok). reflexivity.
  - apply (Hset AUTHORIZED_ID 1%Q). reflexivity.
  - apply (Hidle 9%Q). reflexivity.
Defined.

(** * Further properties *)

(** ** Invariants of the flags *)

Lemma Qle_bool_6_5 x : Qle_bool 6 x = true -> Qle_bool 5 x = true.
Proof.
  intros H. apply Qle_bool_iff. apply Qle_bool_iff in H.
  apply Qle_trans with 6%Q; [discriminate|exact H].
Qed.

Lemma flags_sound_while_reader_runs s :
  reachable s ->
  (image_captured s = true ->
   current_card s = None /\ last_removed_time s <> None)
  /\ (qr_displayed s = true -> image_captured s = true).
Proof.
  induction 1 as [|s o R [IHc IHq]].
  - split; intros H; discriminate H.
  - pose proof (reachable_present_clean s R) as PC.
    destruct o as [[id|] now|now|w|w].
    + rewrite step_scan_present.
      destruct (card_differs (current_card s) id); cbn; [|auto].
      split; intros H; discriminate H.
    + rewrite step_scan_absent.
      destruct (current_card s) as [c|] eqn:Hc; cbn; [|rewrite Hc; auto].
      split; [intros _; split; [reflexivity|discriminate]|exact IHq].
    + rewrite step_poll.
      destruct (last_removed_time s) as [t0|] eqn:Ht; cbn; [|rewrite Ht; auto].
      split.
      * intros _. split; [|discriminate].
        destruct (current_card s) as [c|] eqn:Hc; [|reflexivity].
        assert (F : last_removed_time s = None)
          by (apply PC; rewrite Hc; discriminate).
        congruence.
      * intros Hq. apply orb_true_iff in Hq. apply orb_true_iff.
        destruct Hq as [Hq|Hq]; [left; auto|right].
        apply andb_true_iff in Hq. now apply Qle_bool_6_5.
    + rewrite step_capture. destruct (capture_completes w); cbn; [|auto].
      split; intros H; discriminate H.
    + rewrite step_qr. auto.
Qed.

Lemma flags_sound_after_crash s :
  crashed s ->
  (image_captured s = true -> last_removed_time s <> None)
  /\ (qr_displayed s = true -> image_captured s = true).
Proof.
  induction 1 as [s d id now e R Hr|s o _ [IHc IHq] Ho].
  - destruct (flags_sound_while_reader_runs s R) as [Hc Hq].
    unfold reader_crash. rewrite reader_iteration_state.
    rewrite reader_iteration_result in Hr.
    destruct (card_differs (current_card s) id); [|discriminate Hr].
    destruct (display_raises d); [|discriminate Hr]. cbn.
    split; [intros H; now apply Hc|exact Hq].
  - destruct o as [id now|now|w|w]; [discriminate Ho| | |].
    + rewrite step_poll.
      destruct (last_removed_time s) as [t0|] eqn:Ht; cbn; [|rewrite Ht; auto].
      split; [discriminate|].
      intros Hq. apply orb_true_iff in Hq. apply orb_true_iff.
      destruct Hq as [Hq|Hq]; [left; auto|right].
      apply andb_true_iff in Hq. now apply Qle_bool_6_5.
    + rewrite step_capture. destruct (capture_completes w); cbn; [|auto].
      split; intros H; discriminate H.
    + rewrite step_qr. auto.
Qed.

(** X3. In every state of an execution, be it while the reader thread
    runs or after it has ended on an exception of [display_message], a set
    [image_captured] means that a removal is pending and a set
    [qr_displayed] means that [image_captured] is set too: the QR display
    is never started before the capture.  While the reader thread runs, a
    set [image_captured] also means that no card is tracked. *)
Theorem flags_need_pending_removal s :
  reachable s \/ crashed s ->
  (image_captured s = true -> last_removed_time s <> None)
  /\ (qr_displayed s = true -> image_captured s = true)
  /\ (reachable s -> image_captured s = true -> current_card s = None).
Proof.
  intros H. repeat split.
  - intros Hi. destruct H as [R|C].
    + now apply (flags_sound_while_reader_runs s R).
    + now apply (flags_sound_after_crash s C).
  - destruct H as [R|C].
    + apply (flags_sound_while_reader_runs s R).
    + apply (flags_sound_after_crash s C).
  - intros R Hi. now apply (flags_sound_while_reader_runs s R).
Qed.

Lemma flags_need_pending_removal_witness :
  (last_removed_time state_capture_pending <> None
   /\ current_card state_capture_pending = None)
  /\ last_removed_time
       (step (reader_crash display_down 7 8 state_capture_pending) (Poll 9))
     <> None.
Proof.
  assert (R : reachable state_capture_pending).
  { apply (reachable_run init_state [Scan (Some 42) 0; Scan None 1; Poll 6]).
    apply reach_init. }
  split.
  - destruct (flags_need_pending_removal state_capture_pending)
      as (Hp & _ & Hc); [left; exact R|].
    split; [apply Hp|apply Hc]; auto.
  - destruct (flags_need_pending_removal
                (step (reader_crash display_down 7 8 state_capture_pending)
                      (Poll 9)))
      as (Hp & _).
    + right. apply crashed_step; [|reflexivity].
      apply crashed_now with (e := Exception "I2C write failed");
        [exact R|reflexivity].
    + apply Hp. reflexivity.
Defined.

(** X4. While the reader thread runs, that is, as long as no call of
    [display_message] has raised, and a card is tracked, an iteration of
    the timeout handler starts nothing and changes nothing, whatever the
    clock says. *)
Theorem no_action_while_present s now :
  reachable s -> current_card s <> None ->
  timeout_handler_thread now s
  = ([EvAcquire; EvRelease; EvSleep 0.1], Returned tt, s).
Proof.
  intros R Hc. destruct (reachable_present_clean s R Hc) as (Ht & _).
  unfold timeout_handler_thread, with_state_lock, bind; cbn.
  now rewrite Ht.
Qed.

Lemma no_action_while_present_witness :
  timeout_handler_thread 1000 state_card_authorized
  = ([EvAcquire; EvRelease; EvSleep 0.1], Returned tt, state_card_authorized).
Proof.
  apply no_action_while_present.
  - apply reach_step, reach_init.
  - vm_compute. discriminate.
Defined.

(** ** The QR display within an episode *)

Lemma episode_step_qr t0 s o :
  in_episode t0 s ->
  last_removed_time (step s o) <> None ->
  qr_displayed (step s o) =
  match o with
  | Poll now =>
      qr_displayed s || last_removed_authorized s && Qle_bool 6 (now - t0)
  | _ => qr_displayed s
  end.
Proof.
  intros [Hc Ht] Hopen.
  destruct o as [[id|] now|now|w|w].
  - rewrite step_scan_present, Hc in Hopen. cbn in Hopen. now contradiction Hopen.
  - now rewrite step_scan_absent, Hc.
  - now rewrite step_poll, Ht.
  - rewrite step_capture in *. destruct (capture_completes w); [|reflexivity].
    cbn in Hopen. now contradiction Hopen.
  - now rewrite step_qr.
Qed.

Lemma displayed_no_redisplay t0 ops s p :
  in_episode t0 s -> qr_displayed s = true ->
  In p (episode_polls s ops) -> poll_qr p = false.
Proof.
  intros E Hq Hin.
  destruct (episode_polls_inv (fun s => qr_displayed s = true) t0)
    with (ops := ops) (s := s) (p := p) as (s' & [_ Ht] & Hq' & _ & ->); auto.
  - intros s1 o E1 H1 E2.
    rewrite (episode_step_qr t0 s1 o E1) by now apply in_episode_open with t0.
    rewrite H1. now destruct o.
  - rewrite qr_started_eq, Ht, Hq'. apply andb_false_r.
Qed.

Lemma qr_displays_none polls :
  (forall p, In p polls -> poll_qr p = false) -> qr_displays polls = 0%nat.
Proof.
  unfold qr_displays. induction polls as [|p polls IH]; intros H; cbn.
  - reflexivity.
  - rewrite (H p) by now left. apply IH. intros q Hq. apply H. now right.
Qed.

Lemma early_poll_no_qr t0 ops s p :
  in_episode t0 s -> In p (episode_polls s ops) ->
  (poll_now p - t0 < 6)%Q -> poll_qr p = false.
Proof.
  intros E Hin Hlt.
  destruct (episode_polls_inv (fun _ => True) t0)
    with (ops := ops) (s := s) (p := p) as (s' & [_ Ht] & _ & _ & ->); auto.
  rewrite qr_started_eq, Ht, (Qle_bool_false 6) by exact Hlt.
  now rewrite andb_false_r.
Qed.

Lemma episode_qr_displays t0 ops : forall s,
  in_episode t0 s -> last_removed_authorized s = true ->
  qr_displayed s = false ->
  (qr_displays (episode_polls s ops) <= 1)%nat
  /\ (qr_displays (episode_polls s ops) = 1%nat <->
      exists p, In p (episode_polls s ops) /\ (6 <= poll_now p - t0)%Q).
Proof.
  induction ops as [|o ops IH]; intros s E Ha Hq.
  - cbn. split; [lia|]. split; [discriminate|]. intros (p & [] & _).
  - assert (Hskip : qr_displayed (step s o) = false ->
        (qr_displays (episode_polls (step s o) ops) <= 1)%nat
        /\ (qr_displays (episode_polls (step s o) ops) = 1%nat <->
            exists p, In p (episode_polls (step s o) ops)
                      /\ (6 <= poll_now p - t0)%Q)).
    { intros Hq'. destruct (last_removed_time (step s o)) eqn:Ht'.
      - assert (Hopen : last_removed_time (step s o) <> None) by congruence.
        destruct (episode_step t0 s o E Hopen) as (E' & Ha' & _).
        apply IH; [exact E'|congruence|exact Hq'].
      - rewrite episode_polls_closed by exact Ht'. cbn.
        split; [lia|]. split; [discriminate|]. intros (p & [] & _). }
    pose proof E as [Hc Ht]. cbn. rewrite Ht.
    destruct o as [id now|now|w|w].
    + apply Hskip. destruct id as [id|].
      * rewrite step_scan_present, Hc. reflexivity.
      * rewrite step_scan_absent, Hc. exact Hq.
    + rewrite qr_started_eq, Ht, Ha, Hq, andb_true_r. cbn [andb].
      destruct (Qle_bool 6 (now - t0)) eqn:Q6.
      * assert (Z0 : qr_displays (episode_polls (step s (Poll now)) ops)
                     = 0%nat).
        { apply qr_displays_none. intros p Hp.
          destruct (last_removed_time (step s (Poll now))) eqn:Ht'.
          - apply displayed_no_redisplay with t0 ops (step s (Poll now)); auto.
            + apply episode_step; [exact E|congruence].
            + rewrite step_poll, Ht. cbn. now rewrite Ha, Q6, orb_true_r.
          - rewrite episode_polls_closed in Hp by exact Ht'. contradiction. }
        unfold qr_displays in *. cbn. rewrite Z0. split; [lia|].
        split; [|reflexivity]. intros _.
        eexists. split; [left; reflexivity|]. cbn. now apply Qle_bool_iff.
      * assert (Hq' : qr_displayed (step s (Poll now)) = false).
        { rewrite step_poll, Ht. cbn. now rewrite Hq, Ha, Q6. }
        destruct (Hskip Hq') as [Hle Hiff].
        unfold qr_displays in *. cbn. split; [exact Hle|].
        rewrite Hiff. split.
        -- intros (p & Hp & H6). exists p. auto.
        -- intros (p & [<-|Hp] & H6).
           ++ cbn in H6. apply Qle_bool_iff in H6. congruence.
           ++ exists p. auto.
    + apply Hskip. rewrite step_capture.
      destruct (capture_completes w); [reflexivity|exact Hq].
    + apply Hskip. now rewrite step_qr.
Qed.

(** X1. In the episode opened by removing a card at [t0], [display_qr] is
    started by at most one iteration of the timeout handler, and by
    exactly one if and only if the card is the authorized one and some
    iteration of the episode comes with [now - t0 >= 6]. *)
Theorem qr_at_most_once_per_episode s c t0 ops :
  reachable s -> current_card s = Some c ->
  (qr_displays (episode_polls (step s (Scan None t0)) ops) <= 1)%nat
  /\ (qr_displays (episode_polls (step s (Scan None t0)) ops) = 1%nat <->
      c = AUTHORIZED_ID
      /\ exists p, In p (episode_polls (step s (Scan None t0)) ops)
                   /\ (6 <= poll_now p - t0)%Q).
Proof.
  intros R Hc.
  destruct (episode_opened s c t0 Hc) as (E & Ha & _).
  assert (Hq : qr_displayed (step s (Scan None t0)) = false).
  { rewrite step_scan_absent, Hc. cbn.
    apply (reachable_present_clean s R). congruence. }
  destruct (c =? AUTHORIZED_ID) eqn:Heq.
  - apply Z.eqb_eq in Heq.
    destruct (episode_qr_displays t0 ops _ E Ha Hq) as [Hle Hiff].
    split; [exact Hle|]. rewrite Hiff. tauto.
  - assert (Z0 : qr_displays (episode_polls (step s (Scan None t0)) ops)
                 = 0%nat).
    { apply qr_displays_none. intros p Hp.
      now apply unauthorized_never_qr with t0 ops (step s (Scan None t0)). }
    rewrite Z0. split; [lia|]. apply Z.eqb_neq in Heq.
    split; [discriminate|]. intros [F _]. contradiction.
Qed.

Lemma qr_at_most_once_per_episode_witness :
  (qr_displays (episode_polls (step state_card_authorized (Scan None 1))
                  [Poll 6; Poll 7; Poll 8]) <= 1)%nat
  /\ (qr_displays (episode_polls (step state_card_authorized (Scan None 1))
                     [Poll 6; Poll 7; Poll 8]) = 1%nat <->
      AUTHORIZED_ID = AUTHORIZED_ID
      /\ exists p, In p (episode_polls
                           (step state_card_authorized (Scan None 1))
                           [Poll 6; Poll 7; Poll 8])
                   /\ (6 <= poll_now p - 1)%Q).
Proof.
  apply (qr_at_most_once_per_episode state_card_authorized AUTHORIZED_ID).
  - apply reach_step, reach_init.
  - reflexivity.
Defined.

(** X2. In an episode opened at [t0], an iteration of the timeout handler
    with [now - t0 < 6] never starts [display_qr], so every iteration that
    starts it has [now - t0 >= 6].  When the first iteration after the
    removal of the authorized card already has [now - t0 >= 6], it starts
    both actions at once, [capture_image] first. *)
Theorem qr_delay_threshold s c t0 ops :
  reachable s -> current_card s = Some c ->
  (forall p, In p (episode_polls (step s (Scan None t0)) ops) ->
             (poll_now p - t0 < 6)%Q -> poll_qr p = false)
  /\ (forall p, In p (episode_polls (step s (Scan None t0)) ops) ->
                poll_qr p = true -> (6 <= poll_now p - t0)%Q)
  /\ (forall now, c = AUTHORIZED_ID -> (6 <= now - t0)%Q ->
        run_trace (timeout_handler_thread now) (step s (Scan None t0))
        = [EvAcquire; EvSpawn CaptureImage; EvSpawn DisplayQr; EvRelease;
           EvSleep 0.1]).
Proof.
  intros R Hc.
  destruct (episode_opened s c t0 Hc) as (E & _ & _).
  assert (Hearly : forall p,
             In p (episode_polls (step s (Scan None t0)) ops) ->
             (poll_now p - t0 < 6)%Q -> poll_qr p = false).
  { intros p Hin Hlt.
    now apply early_poll_no_qr with t0 ops (step s (Scan None t0)). }
  split; [exact Hearly|]. split.
  - intros p Hin Hq.
    destruct (Qlt_le_dec (poll_now p - t0) 6) as [Hlt|Hle]; [|exact Hle].
    rewrite (Hearly p Hin Hlt) in Hq. discriminate.
  - intros now -> H6.
    destruct (reachable_present_clean s R) as (_ & Hi & Hq); [congruence|].
    apply Qle_bool_iff in H6. pose proof (Qle_bool_6_5 _ H6) as H5.
    rewrite step_scan_absent, Hc.
    unfold run_trace, timeout_handler_thread, with_state_lock, bind; cbn.
    rewrite H5, Hi. cbn. rewrite H6, Hq. reflexivity.
Qed.

Lemma qr_delay_threshold_witness :
  poll_qr (mkPoll (59 # 10) true false) = false
  /\ (6 <= poll_now (mkPoll 7 false true) - 1)%Q
  /\ run_trace (timeout_handler_thread 9)
       (step state_card_authorized (Scan None 1))
     = [EvAcquire; EvSpawn CaptureImage; EvSpawn DisplayQr; EvRelease;
        EvSleep 0.1].
Proof.
  destruct (qr_delay_threshold state_card_authorized AUTHORIZED_ID 0
              [Poll (59 # 10); Poll 6])
    as (Hearly & _).
  { apply reach_step, reach_init. }
  { reflexivity. }
  destruct (qr_delay_threshold state_card_authorized AUTHORIZED_ID 1
              [Poll 6; Poll 7])
    as (_ & Hlate & Hboth).
  { apply reach_step, reach_init. }
  { reflexivity. }
  split; [|split].
  - apply Hearly; [vm_compute; left; reflexivity|reflexivity].
  - apply Hlate; [vm_compute; right; left; reflexivity|reflexivity].
  - apply Hboth; [reflexivity|vm_compute; discriminate].
Defined.

(** ** Notifications *)

Lemma shown_texts_app tr1 tr2 :
  shown_texts (tr1 ++ tr2) = shown_texts tr1 ++ shown_texts tr2.
Proof.
  induction tr1 as [|e tr1 IH]; [reflexivity|].
  destruct e; cbn; rewrite IH; reflexivity.
Qed.

Lemma shown_texts_scan id now s :
  shown_texts (run_trace (rfid_reader_thread display_works (Some id) now) s) =
  if card_differs (current_card s) id then [notification id] else [].
Proof.
  unfold run_trace, rfid_reader_thread, with_state_lock, bind, notification;
    cbn.
  destruct (card_differs (current_card s) id); cbn; [|reflexivity].
  destruct (id =? AUTHORIZED_ID); reflexivity.
Qed.

Lemma shown_texts_poll now s :
  shown_texts (run_trace (timeout_handler_thread now) s) = [].
Proof.
  unfold run_trace, timeout_handler_thread, with_state_lock, bind; cbn.
  destruct s as [c [t0|] a ic qd]; cbn; [|reflexivity].
  destruct (Qle_bool 5 (now - t0)), ic, a, (Qle_bool 6 (now - t0)), qd;
    reflexivity.
Qed.

Lemma shown_texts_capture w s :
  shown_texts (run_trace (capture_image w) s) = [].
Proof.
  unfold run_trace, capture_image, with_state_lock, bind, extern; cbn.
  destruct (w_camera_start w), (w_camera_capture_file w), (w_camera_stop w);
    reflexivity.
Qed.

Lemma shown_texts_qr w s : shown_texts (run_trace (display_qr w) s) = [].
Proof. unfold run_trace. qr_cases w; reflexivity. Qed.

Lemma card_differs_same id : card_differs (Some id) id = false.
Proof. cbn. now rewrite Z.eqb_refl. Qed.

Lemma shown_texts_run id ops : forall s,
  forallb (reads_only id) ops = true ->
  shown_texts (run_events s ops) =
  if existsb is_scan ops && card_differs (current_card s) id
  then [notification id] else [].
Proof.
  induction ops as [|o ops IH]; intros s Hall; [reflexivity|].
  cbn in Hall. apply andb_true_iff in Hall. destruct Hall as [Ho Hall].
  cbn [run_events existsb]. rewrite shown_texts_app, (IH _ Hall).
  rewrite step_current_card.
  destruct o as [[i|] now|now|w|w]; cbn in Ho; try discriminate Ho;
    cbn [perform is_scan orb].
  - apply Z.eqb_eq in Ho. subst i.
    rewrite shown_texts_scan, card_differs_same, andb_false_r, app_nil_r.
    reflexivity.
  - now rewrite shown_texts_poll.
  - now rewrite shown_texts_capture.
  - now rewrite shown_texts_qr.
Qed.

(** X5. As long as the OLED takes the writes, a card read by any number of
    reader iterations, with iterations of the timeout handler and runs of
    the actions in between, is announced once: with ["AUTHORIZED"] if its
    identifier is [AUTHORIZED_ID], with ["UNAUTHORIZED"] otherwise; and
    not at all when it is the card already tracked.  In an iteration whose
    text draw raises, the card is not announced. *)
Theorem card_announced_once id ops s :
  forallb (reads_only id) ops = true ->
  shown_texts (run_events s ops) =
  (if existsb is_scan ops && card_differs (current_card s) id
   then [notification id] else [])
  /\ forall d now,
       shown_texts (run_trace (rfid_reader_thread d (Some id) now) s) =
       if card_differs (current_card s) id then
         match d_draw_text d with
         | None => [notification id]
         | Some _ => []
         end
       else [].
Proof.
  intros Hall. split; [now apply shown_texts_run|].
  intros d now.
  unfold run_trace, rfid_reader_thread, with_state_lock, bind,
    display_message, notification, extern; cbn.
  destruct (card_differs (current_card s) id); [|reflexivity].
  destruct (id =? AUTHORIZED_ID), (d_draw_text d), (d_draw_rectangle d);
    reflexivity.
Qed.

Lemma card_announced_once_witness :
  shown_texts
    (run_events state_removed_42
       [Poll 2; Scan (Some AUTHORIZED_ID) 3; Poll 4; Qr world_ok;
        Scan (Some AUTHORIZED_ID) 5; Capture world_ok;
        Scan (Some AUTHORIZED_ID) 6])
  = ["AUTHORIZED"]
  /\ shown_texts
       (run_trace (rfid_reader_thread display_down (Some AUTHORIZED_ID) 3)
          state_removed_42)
     = [].
Proof.
  destruct (card_announced_once AUTHORIZED_ID
              [Poll 2; Scan (Some AUTHORIZED_ID) 3; Poll 4; Qr world_ok;
               Scan (Some AUTHORIZED_ID) 5; Capture world_ok;
               Scan (Some AUTHORIZED_ID) 6]
              state_removed_42) as [Hrun Hone].
  - reflexivity.
  - split; [exact Hrun|apply (Hone display_down 3%Q)].
Defined.

(** ** Actions started over a whole run *)

Lemma count_spawns_app t tr1 tr2 :
  count_spawns t (tr1 ++ tr2) = (count_spawns t tr1 + count_spawns t tr2)%nat.
Proof. unfold count_spawns. now rewrite filter_app, length_app. Qed.

Lemma count_spawns_scan t id now s :
  count_spawns t (run_trace (rfid_reader_thread display_works id now) s)
  = 0%nat.
Proof.
  unfold run_trace, rfid_reader_thread, with_state_lock, bind; cbn.
  destruct id as [id|]; cbn.
  - destruct (card_differs (current_card s) id); cbn; [|reflexivity].
    destruct (id =? AUTHORIZED_ID); reflexivity.
  - destruct (current_card s); reflexivity.
Qed.

Lemma count_spawns_capture t w s :
  count_spawns t (run_trace (capture_image w) s) = 0%nat.
Proof.
  unfold run_trace, capture_image, with_state_lock, bind, extern; cbn.
  destruct (w_camera_start w), (w_camera_capture_file w), (w_camera_stop w);
    reflexivity.
Qed.

Lemma count_spawns_qr t w s :
  count_spawns t (run_trace (display_qr w) s) = 0%nat.
Proof. unfold run_trace. qr_cases w; reflexivity. Qed.

Lemma count_spawns_poll_capture now s :
  count_spawns CaptureImage (run_trace (timeout_handler_thread now) s) =
  if capture_started s now then 1%nat else 0%nat.
Proof.
  rewrite capture_started_eq.
  unfold count_spawns, run_trace, timeout_handler_thread, with_state_lock,
    bind; cbn.
  destruct s as [c [t0|] a ic qd]; cbn; [|reflexivity].
  destruct (Qle_bool 5 (now - t0)), ic, a, (Qle_bool 6 (now - t0)), qd;
    reflexivity.
Qed.

Lemma count_spawns_poll_qr now s :
  count_spawns DisplayQr (run_trace (timeout_handler_thread now) s) =
  if qr_started s now then 1%nat else 0%nat.
Proof.
  rewrite qr_started_eq.
  unfold count_spawns, run_trace, timeout_handler_thread, with_state_lock,
    bind; cbn.
  destruct s as [c [t0|] a ic qd]; cbn; [|reflexivity].
  destruct (Qle_bool 5 (now - t0)), ic, a, (Qle_bool 6 (now - t0)), qd;
    reflexivity.
Qed.

(** Each access pays for the capture it starts out of what is due, and
    only a removal adds to what is due. *)
Lemma capture_due_step s o :
  (count_spawns CaptureImage (run_trace (perform o) s) + capture_due (step s o)
   <= removals s [o] + capture_due s)%nat.
Proof.
  unfold capture_due.
  destruct o as [[id|] now|now|w|w]; cbn [removals perform].
  - rewrite count_spawns_scan, step_scan_present.
    destruct (card_differs (current_card s) id); cbn; lia.
  - rewrite count_spawns_scan, step_scan_absent.
    destruct (current_card s); cbn; [destruct (image_captured s)|]; lia.
  - rewrite count_spawns_poll_capture, capture_started_eq, step_poll.
    destruct (last_removed_time s) as [t0|] eqn:Ht; cbn; [|rewrite Ht; lia].
    destruct (image_captured s), (Qle_bool 5 (now - t0)); cbn; lia.
  - rewrite count_spawns_capture, step_capture.
    destruct (capture_completes w); cbn; lia.
  - rewrite count_spawns_qr, step_qr. lia.
Qed.

Lemma qr_due_step s o :
  (count_spawns DisplayQr (run_trace (perform o) s) + qr_due (step s o)
   <= authorized_removals s [o] + qr_due s)%nat.
Proof.
  unfold qr_due.
  destruct o as [[id|] now|now|w|w]; cbn [authorized_removals perform].
  - rewrite count_spawns_scan, step_scan_present.
    destruct (card_differs (current_card s) id); cbn; lia.
  - rewrite count_spawns_scan, step_scan_absent.
    destruct (current_card s) as [c|]; cbn; [|lia].
    destruct (c =? AUTHORIZED_ID), (qr_displayed s); cbn; lia.
  - rewrite count_spawns_poll_qr, qr_started_eq, step_poll.
    destruct (last_removed_time s) as [t0|] eqn:Ht; cbn; [|rewrite Ht; lia].
    destruct (last_removed_authorized s), (qr_displayed s),
      (Qle_bool 6 (now - t0)); cbn; lia.
  - rewrite count_spawns_capture, step_capture.
    destruct (capture_completes w); cbn; lia.
  - rewrite count_spawns_qr, step_qr. lia.
Qed.

Lemma captures_bounded ops : forall s,
  (count_spawns CaptureImage (run_events s ops) + capture_due (run s ops)
   <= removals s ops + capture_due s)%nat.
Proof.
  induction ops as [|o ops IH]; intros s; [cbn; lia|].
  cbn [run_events run fold_left]. fold (run (step s o) ops).
  rewrite count_spawns_app.
  pose proof (capture_due_step s o) as H1.
  pose proof (IH (step s o)) as H2.
  cbn [removals] in *. lia.
Qed.

Lemma qr_displays_bounded ops : forall s,
  (count_spawns DisplayQr (run_events s ops) + qr_due (run s ops)
   <= authorized_removals s ops + qr_due s)%nat.
Proof.
  induction ops as [|o ops IH]; intros s; [cbn; lia|].
  cbn [run_events run fold_left]. fold (run (step s o) ops).
  rewrite count_spawns_app.
  pose proof (qr_due_step s o) as H1.
  pose proof (IH (step s o)) as H2.
  cbn [authorized_removals] in *. lia.
Qed.

(** X7. Over any run from the initial state, [capture_image] is started at
    most as many times as a tracked card was found gone. *)
Theorem captures_at_most_removals ops :
  (count_spawns CaptureImage (run_events init_state ops)
   <= removals init_state ops)%nat.
Proof. pose proof (captures_bounded ops init_state) as H. cbn in H. lia. Qed.

(** X8. Over any run from the initial state, [display_qr] is started at
    most as many times as the authorized card was found gone. *)
Theorem qr_displays_at_most_authorized_removals ops :
  (count_spawns DisplayQr (run_events init_state ops)
   <= authorized_removals init_state ops)%nat.
Proof. pose proof (qr_displays_bounded ops init_state) as H. cbn in H. lia. Qed.

(** ** An episode whose capture has been started *)

(** X9. Once [capture_image] has been started for an episode, the episode
    stays open with [image_captured] set, and no further capture is
    started, for as long as no card is presented and no run of
    [capture_image] completes: absent readings, polls at any time, failed
    captures and QR displays change nothing of it.  The next card read
    clears the episode and both flags if [display_message] returns; if it
    raises, the card is tracked while the removal stays pending and the
    flags stay as they are. *)
Theorem capture_pending_until_reset t0 s ops :
  in_episode t0 s -> image_captured s = true ->
  forallb quiet ops = true ->
  in_episode t0 (run s ops)
  /\ image_captured (run s ops) = true
  /\ count_spawns CaptureImage (run_events s ops) = 0%nat
  /\ forall d id now,
       run_state (rfid_reader_thread d (Some id) now) (run s ops) =
       match display_raises d with
       | None =>
           {| current_card := Some id;
              last_removed_time := None;
              last_removed_authorized := last_removed_authorized s;
              image_captured := false;
              qr_displayed := false |}
       | Some _ =>
           {| current_card := Some id;
              last_removed_time := Some t0;
              last_removed_authorized := last_removed_authorized s;
              image_captured := true;
              qr_displayed := qr_displayed (run s ops) |}
       end.
Proof.
  revert s. induction ops as [|o ops IH]; intros s E Hi Hq.
  - cbn. repeat split; try apply E; auto.
    intros d id now. destruct E as [Hc Ht].
    rewrite reader_iteration_state, Hc, Ht, Hi. reflexivity.
  - cbn in Hq. apply andb_true_iff in Hq. destruct Hq as [Hqo Hq].
    pose proof (quiet_step_open t0 s o E Hqo) as Hopen.
    destruct (episode_step t0 s o E Hopen) as (E' & Ha' & Hi').
    assert (Hi'' : image_captured (step s o) = true).
    { rewrite Hi', Hi. now destruct o. }
    destruct (IH (step s o) E' Hi'' Hq) as (E2 & I2 & C2 & R2).
    cbn [run fold_left run_events]. fold (run (step s o) ops).
    repeat split; try apply E2; auto.
    + rewrite count_spawns_app, C2, Nat.add_0_r.
      destruct o as [id now|now|w|w]; cbn [perform].
      * apply count_spawns_scan.
      * rewrite count_spawns_poll_capture, capture_started_eq.
        destruct E as [_ Ht]. now rewrite Ht, Hi, andb_false_r.
      * apply count_spawns_capture.
      * apply count_spawns_qr.
    + intros d id now. now rewrite R2, Ha'.
Qed.

Lemma capture_pending_until_reset_witness :
  in_episode 1 (run state_capture_pending
                  [Poll 7; Capture world_camera_fails; Scan None 8; Poll 99])
  /\ image_captured
       (run state_capture_pending
          [Poll 7; Capture world_camera_fails; Scan None 8; Poll 99]) = true
  /\ count_spawns CaptureImage
       (run_events state_capture_pending
          [Poll 7; Capture world_camera_fails; Scan None 8; Poll 99]) = 0%nat
  /\ run_state (rfid_reader_thread display_works (Some 42) 100)
       (run state_capture_pending
          [Poll 7; Capture world_camera_fails; Scan None 8; Poll 99])
     = {| current_card := Some 42;
          last_removed_time := None;
          last_removed_authorized := false;
          image_captured := false;
          qr_displayed := false |}
  /\ run_state (rfid_reader_thread display_down (Some 42) 100)
       (run state_capture_pending
          [Poll 7; Capture world_camera_fails; Scan None 8; Poll 99])
     = {| current_card := Some 42;
          last_removed_time := Some 1%Q;
          last_removed_authorized := false;
          image_captured := true;
          qr_displayed := false |}.
Proof.
  destruct (capture_pending_until_reset 1 state_capture_pending
              [Poll 7; Capture world_camera_fails; Scan None 8; Poll 99])
    as (E & Hi & Hc & Hnext).
  - split; reflexivity.
  - reflexivity.
  - reflexivity.
  - split; [exact E|]. split; [exact Hi|]. split; [exact Hc|]. split.
    + apply (Hnext display_works 42 100%Q).
    + apply (Hnext display_down 42 100%Q).
Defined.

(** ** Where the QR bitmap is drawn *)

Lemma drawn_bitmaps_native w img s :
  drawn_bitmaps (run_trace (display_qr_native w img) s) =
  match w_draw_bitmap w with
  | None => [((OLED_WIDTH - img_width img) / 2,
              (OLED_HEIGHT - img_height img) / 2)]
  | Some _ => []
  end.
Proof.
  unfold run_trace, display_qr_native, bind, extern.
  destruct (w_draw_bitmap w); [reflexivity|].
  destruct (w_clear_native w); reflexivity.
Qed.

(** X10. [display_qr_native] centres the bitmap: on each axis the margin
    before it is the margin after it, or one pixel less.  An image no
    larger than the 128 x 64 display starts at a non-negative position; a
    wider (higher) one starts left of (above) the display, at a negative
    coordinate. *)
Theorem bitmap_centred w img s x y :
  In (x, y) (drawn_bitmaps (run_trace (display_qr_native w img) s)) ->
  (x <= OLED_WIDTH - img_width img - x <= x + 1)
  /\ (y <= OLED_HEIGHT - img_height img - y <= y + 1)
  /\ (img_width img <= OLED_WIDTH <-> 0 <= x)
  /\ (img_height img <= OLED_HEIGHT <-> 0 <= y).
Proof.
  rewrite drawn_bitmaps_native.
  destruct (w_draw_bitmap w) as [e|]; [contradiction|].
  intros [H|[]].
  pose proof (f_equal fst H) as Hx. pose proof (f_equal snd H) as Hy.
  cbn [fst snd] in Hx, Hy. clear H. subst x y.
  generalize (img_width img) (img_height img). intros width height.
  unfold OLED_WIDTH, OLED_HEIGHT.
  Z.div_mod_to_equations. lia.
Qed.

Lemma bitmap_centred_witness :
  (50 <= OLED_WIDTH - img_width (mkImage 27 27) - 50 <= 50 + 1)
  /\ (18 <= OLED_HEIGHT - img_height (mkImage 27 27) - 18 <= 18 + 1)
  /\ (img_width (mkImage 27 27) <= OLED_WIDTH <-> 0 <= 50)
  /\ (img_height (mkImage 27 27) <= OLED_HEIGHT <-> 0 <= 18).
Proof.
  apply (bitmap_centred world_ok (mkImage 27 27) init_state 50 18).
  left. reflexivity.
Defined.

(** ** What [display_qr] leaves behind *)

(** X11. A run of [display_qr] returns normally exactly when its last
    step is a completed [device.clear()].  A run whose [try] body does not
    raise draws the bitmap once, keeps it for 5 seconds and clears the
    display.  A run that raises does so with the exception of the
    handler's [device.clear()] and has not cleared the display at any
    point. *)
Theorem display_qr_clears_display w s :
  is_device_clear (last (run_trace (display_qr w) s) EvAcquire) =
  match run_result (display_qr w) s with
  | Returned _ => true
  | Raised _ => false
  end
  /\ (qr_failure w = None ->
      exists before x y msg,
        run_trace (display_qr w) s =
        before ++ [EvDrawBitmap x y; EvPrint msg; EvSleep 5; EvDeviceClear]
        /\ drawn_bitmaps before = [])
  /\ (forall e, run_result (display_qr w) s = Raised e ->
        w_clear_handler w = Some e
        /\ existsb is_device_clear (run_trace (display_qr w) s) = false).
Proof.
  unfold qr_failure, run_trace, run_result. qr_cases w;
    (split; [reflexivity|split]);
    try (intros H; discriminate H);
    try (intros ? H; discriminate H);
    try (intros ? [= ->]; split; reflexivity);
    intros _; eexists [_; _; _; _], _, _, _; split; reflexivity.
Qed.

Lemma display_qr_clears_display_witness :
  (exists before x y msg,
     run_trace (display_qr world_ok) init_state =
     before ++ [EvDrawBitmap x y; EvPrint msg; EvSleep 5; EvDeviceClear]
     /\ drawn_bitmaps before = [])
  /\ (w_clear_handler world_display_down = Some (Exception "I2C write failed")
      /\ existsb is_device_clear
           (run_trace (display_qr world_display_down) init_state) = false).
Proof.
  split.
  - apply (display_qr_clears_display world_ok init_state). reflexivity.
  - apply (display_qr_clears_display world_display_down init_state).
    reflexivity.
Defined.

(** X15. [display_qr] writes the QR image file exactly when reading the
    file, encoding and saving succeed, whether or not the bitmap can then
    be drawn; otherwise it writes no file. *)
Theorem display_qr_saves_before_drawing w s :
  files_written (run_trace (display_qr w) s) =
  match w_file_read w with
  | Returned raw =>
      match w_qr_make w (strip raw), w_img_save w with
      | Returned _, None => [SAVE_PATH]
      | _, _ => []
      end
  | Raised _ => []
  end.
Proof. unfold run_trace. qr_cases w; reflexivity. Qed.

(** ** What a failed capture leaves behind *)

(** X12. When a camera call of [capture_image] raises, the globals are
    left as they were and [picam2.stop()] has not completed, so a camera
    that was started stays started.  The image file has been written
    exactly when the failing call is [picam2.stop()] itself. *)
Theorem capture_failure_modes w s :
  capture_completes w = false ->
  run_state (capture_image w) s = s
  /\ existsb is_camera_stop (run_trace (capture_image w) s) = false
  /\ files_written (run_trace (capture_image w) s) =
     match w_camera_start w, w_camera_capture_file w with
     | None, None =>
         [(IMAGE_DIRECTORY ++ "/image_" ++ w_strftime w ++ ".jpg")%string]
     | _, _ => []
     end.
Proof.
  unfold capture_completes, run_state, run_trace, capture_image,
    with_state_lock, bind, extern.
  destruct (w_camera_start w) as [e1|], (w_camera_capture_file w) as [e2|],
    (w_camera_stop w) as [e3|]; cbn; intros H; try discriminate H;
    repeat split.
Qed.

Lemma capture_failure_modes_witness :
  run_state (capture_image world_camera_fails) state_capture_pending
  = state_capture_pending
  /\ existsb is_camera_stop
       (run_trace (capture_image world_camera_fails) state_capture_pending)
     = false
  /\ files_written
       (run_trace (capture_image world_camera_fails) state_capture_pending)
     = [].
Proof.
  apply (capture_failure_modes world_camera_fails state_capture_pending).
  reflexivity.
Defined.

(** ** When the lock is held across a slow step *)

(** X13. Among all accesses, the only one that draws or sleeps while
    holding [state_lock] is an iteration of the reader that reads a card
    other than the tracked one.  Iterations of the timeout handler, runs of
    [capture_image] and [display_qr], and reader iterations that see no
    card or the same card never do. *)
Theorem lock_held_across_slow_step_iff o s :
  lock_discipline false (run_trace (perform o) s) =
  match o with
  | Scan (Some id) _ => negb (card_differs (current_card s) id)
  | _ => true
  end.
Proof.
  destruct o as [[id|] now|now|w|w]; cbn [perform].
  - destruct (card_differs (current_card s) id) eqn:Hd; cbn [negb].
    + now apply lock_held_on_arrival.
    + apply lock_discipline_scan_same. now apply card_differs_false.
  - apply lock_discipline_scan_absent.
  - apply lock_discipline_poll.
  - apply lock_discipline_capture.
  - apply lock_discipline_qr.
Qed.

(** ** Names of the captured images *)

Lemma length_append (x y : string) :
  String.length (x ++ y) = (String.length x + String.length y)%nat.
Proof. induction x as [|c x IH]; cbn; [reflexivity|now rewrite IH]. Qed.

Lemma append_cancel_r (suffix : string) : forall x y : string,
  (x ++ suffix)%string = (y ++ suffix)%string -> x = y.
Proof.
  induction x as [|c x IH]; intros [|d y] H; cbn in H.
  - reflexivity.
  - apply (f_equal String.length) in H. cbn in H.
    rewrite length_append in H. lia.
  - apply (f_equal String.length) in H. cbn in H.
    rewrite length_append in H. lia.
  - injection H as -> H. f_equal. now apply IH.
Qed.

(** X14. The name of the file a capture writes determines the text
    [time.strftime] returned to it: two runs of [capture_image] write the
    same file only if [time.strftime] gave them the same text. *)
Theorem capture_file_names_timestamp w1 w2 s1 s2 path :
  In path (files_written (run_trace (capture_image w1) s1)) ->
  In path (files_written (run_trace (capture_image w2) s2)) ->
  w_strftime w1 = w_strftime w2.
Proof.
  intros H1 H2.
  apply files_written_capture in H1. apply files_written_capture in H2.
  rewrite H1 in H2. cbn in H2.
  repeat (injection H2 as H2).
  now apply append_cancel_r with ".jpg".
Qed.

Lemma capture_file_names_timestamp_witness :
  w_strftime world_ok = w_strftime world_file_missing.
Proof.
  apply (capture_file_names_timestamp world_ok world_file_missing
           init_state state_capture_pending
           "/home/soham/captured_images/image_20250101-120000.jpg");
    left; reflexivity.
Defined.

(** ** A run with two removals *)

Example two_removals_two_captures :
  count_spawns CaptureImage
    (run_events init_state
       [Scan (Some 42) 0; Scan None 1; Poll 6; Poll 7; Capture world_ok;
        Scan (Some AUTHORIZED_ID) 20; Scan None 21; Scan None 22; Poll 27;
        Poll 28]) = 2%nat
  /\ removals init_state
       [Scan (Some 42) 0; Scan None 1; Poll 6; Poll 7; Capture world_ok;
        Scan (Some AUTHORIZED_ID) 20; Scan None 21; Scan None 22; Poll 27;
        Poll 28] = 2%nat
  /\ count_spawns DisplayQr
       (run_events init_state
          [Scan (Some 42) 0; Scan None 1; Poll 6; Poll 7; Capture world_ok;
           Scan (Some AUTHORIZED_ID) 20; Scan None 21; Scan None 22; Poll 27;
           Poll 28]) = 1%nat.
Proof. repeat split. Qed.

(** ** Nothing is started without a removal *)

Lemma authorized_removals_le ops : forall s,
  (authorized_removals s ops <= removals s ops)%nat.
Proof.
  induction ops as [|o ops IH]; intros s; cbn; [lia|].
  specialize (IH (step s o)).
  destruct o as [[id|] now|now|w|w]; try lia.
  destruct (current_card s) as [c|]; [|lia].
  destruct (c =? AUTHORIZED_ID); lia.
Qed.

(** X6. From a state with no removal pending, a run in which no reader
    iteration finds a tracked card gone starts neither [capture_image] nor
    [display_qr], whatever else happens: cards arriving, one card replacing
    another between two readings, polls at any time. *)
Theorem no_action_without_removal s ops :
  last_removed_time s = None -> removals s ops = 0%nat ->
  count_spawns CaptureImage (run_events s ops) = 0%nat
  /\ count_spawns DisplayQr (run_events s ops) = 0%nat.
Proof.
  intros Ht Hr.
  pose proof (captures_bounded ops s) as Hc.
  pose proof (qr_displays_bounded ops s) as Hq.
  pose proof (authorized_removals_le ops s) as Ha.
  unfold capture_due, qr_due in Hc, Hq. rewrite Ht in Hc, Hq.
  lia.
Qed.

Lemma no_action_without_removal_witness :
  count_spawns CaptureImage
    (run_events state_card_42
       [Poll 10; Scan (Some AUTHORIZED_ID) 11; Poll 30; Scan (Some 7) 31;
        Poll 60]) = 0%nat
  /\ count_spawns DisplayQr
       (run_events state_card_42
          [Poll 10; Scan (Some AUTHORIZED_ID) 11; Poll 30; Scan (Some 7) 31;
           Poll 60]) = 0%nat.
Proof.
  apply no_action_without_removal; reflexivity.
Defined.
